(** * Shift reconciliation and pairwise overlap (hockey-api, nhl/json_shifts.py)

    A shallow embedding of [get_game_shifts] (the shift time reconciler) and
    [get_overlapping_shifts] (the pairwise overlap engine), followed by the
    properties of the specification that were checked against them.

    The development then covers the rest of the code that can be embedded:
    [get_season_game_shifts] of the same file, the two functions of
    nhl/schedule_scraper.py and [standardize_coordinates] of nhl/utils.py,
    with properties read off the code.  The functions of nhl/utils.py that
    match player names rest on difflib's similarity ratio and on objects
    defined elsewhere, and are left out.

    Modelling conventions.
    - A pandas data frame is a list of labelled rows: the label is the index
      label of the row (pandas keeps it through [dropna], [.loc] and [drop]),
      the row is a record with one field per column.
    - Integer columns are [Z].  The arithmetic that numpy does on whole
      columns (lines 87-98 of get_game_shifts) is int64 arithmetic and wraps
      around; it is written with [int64].  Arithmetic on Python integers
      (lines 69-84) is exact.
    - Time strings are [string]s of ASCII characters, sliced, split and parsed
      the way the Python code does it.  Integer literals are taken to be
      shorter than the limit (4300 digits) that recent interpreters put on
      the conversion between text and integers.
    - Python exceptions are values of [exn]; a function that may raise
      returns a [result]. *)

From Stdlib Require Import ZArith List Sorted Permutation Bool Lia Ascii String.
From Stdlib Require Import DecimalString DecimalZ.
Import ListNotations.

Open Scope string_scope.
Open Scope Z_scope.

(** ** Exceptions and the error monad *)

Inductive exn : Type :=
| ValueError
| IndexError
| OverflowError.

Inductive result (A : Type) : Type :=
| Ok (a : A)
| Raise (e : exn).

Arguments Ok {A} a.
Arguments Raise {A} e.

Definition bind {A B : Type} (m : result A) (k : A -> result B) : result B :=
  match m with
  | Ok a => k a
  | Raise e => Raise e
  end.

Notation "x <- m ;; k" := (bind m (fun x => k))
  (at level 61, m at next level, right associativity).

Fixpoint mapM {A B : Type} (f : A -> result B) (l : list A) : result (list B) :=
  match l with
  | [] => Ok []
  | a :: l' => b <- f a ;; bs <- mapM f l' ;; Ok (b :: bs)
  end.

Fixpoint foldM {A S : Type} (f : S -> A -> result S) (l : list A) (s : S)
  : result S :=
  match l with
  | [] => Ok s
  | a :: l' => s' <- f s a ;; foldM f l' s'
  end.

(** ** Python strings *)

Module Py.

(** The characters that [int] skips around an integer literal: tab, line
    feed, vertical tab, form feed, carriage return and space. *)
Definition is_space (c : ascii) : bool :=
  let n := nat_of_ascii c in
  (((9 <=? n) && (n <=? 13)) || (n =? 32))%nat.

Definition is_digit (c : ascii) : bool :=
  let n := nat_of_ascii c in ((48 <=? n) && (n <=? 57))%nat.

Fixpoint lstrip (s : string) : string :=
  match s with
  | String c s' => if is_space c then lstrip s' else s
  | EmptyString => EmptyString
  end.

Fixpoint rstrip (s : string) : string :=
  match s with
  | EmptyString => EmptyString
  | String c s' =>
      match rstrip s' with
      | EmptyString => if is_space c then EmptyString else String c EmptyString
      | t => String c t
      end
  end.

Definition strip (s : string) : string := rstrip (lstrip s).

(** The digits of an integer literal: decimal digits, where two digits may be
    separated by one underscore.  [after_digit] tells whether the previous
    character was a digit.  The underscores are removed. *)
Fixpoint literal_digits (after_digit : bool) (s : string) : option string :=
  match s with
  | EmptyString => if after_digit then Some EmptyString else None
  | String c s' =>
      if is_digit c then option_map (String c) (literal_digits true s')
      else if Ascii.eqb c "_" then
             if after_digit then literal_digits false s' else None
           else None
  end.

Definition nat_literal (s : string) : option Z :=
  match literal_digits false s with
  | Some ds => option_map Z.of_uint (NilEmpty.uint_of_string ds)
  | None => None
  end.

(** [int(s)] for a string [s], base 10: surrounding white space is ignored,
    one sign is allowed; anything else raises ValueError. *)
Definition int (s : string) : result Z :=
  let body :=
    match strip s with
    | String c t =>
        if Ascii.eqb c "-" then option_map Z.opp (nat_literal t)
        else if Ascii.eqb c "+" then nat_literal t
        else nat_literal (String c t)
    | EmptyString => None
    end in
  match body with
  | Some z => Ok z
  | None => Raise ValueError
  end.

(** [str(z)], which is what an f-string prints for an integer. *)
Definition str (z : Z) : string := NilZero.string_of_int (Z.to_int z).

(** [s[i:j]] and [s[i:]] for non-negative constants [i <= j]. *)
Definition slice (i j : nat) (s : string) : string := substring i (j - i) s.
Definition slice_from (i : nat) (s : string) : string :=
  substring i (String.length s) s.

(** [s.split(sep)] for a one-character separator. *)
Fixpoint split (sep : ascii) (s : string) : list string :=
  match s with
  | EmptyString => [EmptyString]
  | String c s' =>
      if Ascii.eqb c sep then EmptyString :: split sep s'
      else match split sep s' with
           | h :: t => String c h :: t
           | [] => [String c EmptyString]
           end
  end.

(** [range(a, b)]: the number of its elements, [range(a, b)[0]] and
    [range(a, b)[-1]]. *)
Definition range_len (a b : Z) : Z := Z.max 0 (b - a).

(** [sys.maxsize], and [len(range(a, b))]: [len] raises OverflowError when
    the number of elements does not fit a machine integer. *)
Definition maxsize : Z := 2 ^ 63 - 1.

Definition len_range (a b : Z) : result Z :=
  if maxsize <? range_len a b then Raise OverflowError else Ok (range_len a b).

Definition range_first (a b : Z) : result Z :=
  if range_len a b =? 0 then Raise IndexError else Ok a.

Definition range_last (a b : Z) : result Z :=
  if range_len a b =? 0 then Raise IndexError else Ok (b - 1).

End Py.

(** ** Data model *)

(** One row of the shift table.  [T] is the type of the three time columns:
    [string] while they hold the provider's mm:ss text, [Z] once they are
    seconds. *)
Record ShiftRow (T : Type) : Type := mkShift {
  gameId : Z;
  playerId : Z;
  startTime : T;
  period : Z;
  endTime : T;
  duration : T;
  teamId : Z;
  teamName : string
}.

Arguments mkShift {T}.
Arguments gameId {T}.
Arguments playerId {T}.
Arguments startTime {T}.
Arguments period {T}.
Arguments endTime {T}.
Arguments duration {T}.
Arguments teamId {T}.
Arguments teamName {T}.

(** A reconciled shift: the time columns are seconds. *)
Abbreviation Shift := (ShiftRow Z).

(** A provider record, after [pd.json_normalize]: every cell may be null
    (NaN).  The provider's records carry all eight keys. *)
Record RawShift : Type := mkRaw {
  raw_gameId : option Z;
  raw_playerId : option Z;
  raw_startTime : option string;
  raw_period : option Z;
  raw_endTime : option string;
  raw_duration : option string;
  raw_teamId : option Z;
  raw_teamName : option string
}.

Record DataFrame (R : Type) : Type := mkFrame {
  columns : list string;
  rows : list (Z * R)
}.

Arguments mkFrame {R}.
Arguments columns {R}.
Arguments rows {R}.

Definition shift_columns : list string :=
  ["gameId"; "playerId"; "startTime"; "period";
   "endTime"; "duration"; "teamId"; "teamName"].

Definition empty_frame {R : Type} : DataFrame R := mkFrame shift_columns [].

(** ** The shift time reconciler: [get_game_shifts] *)

(** [pd.json_normalize]: the rows get the labels 0, 1, 2, ... *)
Fixpoint range_index {A : Type} (from : Z) (l : list A) : list (Z * A) :=
  match l with
  | [] => []
  | a :: l' => (from, a) :: range_index (from + 1) l'
  end.

(** Selecting the eight columns and [dropna]: a row with a null cell goes. *)
Definition complete_row (r : RawShift) : option (ShiftRow string) :=
  match raw_gameId r, raw_playerId r, raw_startTime r, raw_period r,
        raw_endTime r, raw_duration r, raw_teamId r, raw_teamName r with
  | Some g, Some p, Some s, Some pe, Some e, Some d, Some t, Some n =>
      Some (mkShift g p s pe e d t n)
  | _, _, _, _, _, _, _, _ => None
  end.

Fixpoint dropna (l : list (Z * RawShift)) : list (Z * ShiftRow string) :=
  match l with
  | [] => []
  | (i, r) :: l' =>
      match complete_row r with
      | Some s => (i, s) :: dropna l'
      | None => dropna l'
      end
  end.

Definition set_startTime {T} (v : T) (r : ShiftRow T) : ShiftRow T :=
  mkShift (gameId r) (playerId r) v (period r) (endTime r) (duration r)
          (teamId r) (teamName r).

Definition set_endTime {T} (v : T) (r : ShiftRow T) : ShiftRow T :=
  mkShift (gameId r) (playerId r) (startTime r) (period r) v (duration r)
          (teamId r) (teamName r).

Definition missing_start_time (r : ShiftRow string) : bool :=
  String.eqb (startTime r) "".

Definition missing_end_time (r : ShiftRow string) : bool :=
  String.eqb (endTime r) "".

Definition final_period (r : ShiftRow string) : bool := period r =? 3.

(** [lambda x: int(x[0:2]) >= 18], applied to the start time of every row. *)
Definition final_two_minutes (r : ShiftRow string) : result bool :=
  m <- Py.int (Py.slice 0 2 (startTime r)) ;; Ok (18 <=? m).

(** Lines 59-63: the end time of a final shift of regulation. *)
Definition end_of_regulation (r : ShiftRow string) : result (ShiftRow string) :=
  f2 <- final_two_minutes r ;;
  Ok (if missing_end_time r && final_period r && f2
      then set_endTime "20:00" r else r).

(** Lines 69-71: a missing start time, from end time and duration. *)
Definition backfill_start (r : ShiftRow string) : result (ShiftRow string) :=
  if missing_start_time r then
    em <- Py.int (Py.slice 0 2 (endTime r)) ;;
    dm <- Py.int (Py.slice 0 2 (duration r)) ;;
    es <- Py.int (Py.slice_from 3 (endTime r)) ;;
    ds <- Py.int (Py.slice_from 3 (duration r)) ;;
    Ok (set_startTime (Py.str (em - dm) ++ ":" ++ Py.str (es - ds)) r)
  else Ok r.

(** Lines 74-76: a missing end time, from start time and duration. *)
Definition backfill_end (r : ShiftRow string) : result (ShiftRow string) :=
  if missing_end_time r then
    sm <- Py.int (Py.slice 0 2 (startTime r)) ;;
    dm <- Py.int (Py.slice 0 2 (duration r)) ;;
    ss <- Py.int (Py.slice_from 3 (startTime r)) ;;
    ds <- Py.int (Py.slice_from 3 (duration r)) ;;
    Ok (set_endTime (Py.str (sm + dm) ++ ":" ++ Py.str (ss + ds)) r)
  else Ok r.

(** [int(minute) * 60 + int(second) for minute, second in s.split(':')] *)
Definition to_seconds (s : string) : result Z :=
  match Py.split ":" s with
  | [minute; second] =>
      m <- Py.int minute ;; sec <- Py.int second ;; Ok (m * 60 + sec)
  | _ => Raise ValueError
  end.

(** Lines 79-84: the three time columns, in seconds. *)
Definition convert_row (r : ShiftRow string) : result Shift :=
  s <- to_seconds (startTime r) ;;
  e <- to_seconds (endTime r) ;;
  d <- to_seconds (duration r) ;;
  Ok (mkShift (gameId r) (playerId r) s (period r) e d (teamId r) (teamName r)).

(** The value that int64 arithmetic gives where exact arithmetic gives [z]:
    the representative of [z] modulo 2^64 in [-2^63, 2^63). *)
Definition int64 (z : Z) : Z := (z + 2 ^ 63) mod 2 ^ 64 - 2 ^ 63.

(** Lines 87-88: period-local seconds to seconds since the start of the game.
    The columns are int64, so the product and the sum wrap around. *)
Definition elapsed (r : Shift) : Shift :=
  mkShift (gameId r) (playerId r)
          (int64 (int64 (1200 * int64 (period r - 1)) + startTime r)) (period r)
          (int64 (int64 (1200 * int64 (period r - 1)) + endTime r)) (duration r)
          (teamId r) (teamName r).

Definition period_shift (r : Shift) : bool := endTime r <? startTime r.

(** Lines 91-98: one more period for an end before the start, then the
    duration from the two end points, both in int64. *)
Definition finish_row (r : Shift) : Shift :=
  let e := if period_shift r then int64 (endTime r + 1200) else endTime r in
  mkShift (gameId r) (playerId r) (startTime r) (period r) e
          (int64 (e - startTime r)) (teamId r) (teamName r).

Definition on_row {A B : Type} (f : A -> result B) (x : Z * A)
  : result (Z * B) :=
  b <- f (snd x) ;; Ok (fst x, b).

(** Lines 52-84 of [get_game_shifts]: the table with its time columns in
    period-local seconds.  Each column operation of the source runs over the
    whole table before the next one starts. *)
Definition local_seconds (df : list (Z * ShiftRow string))
  : result (list (Z * Shift)) :=
  df1 <- mapM (on_row end_of_regulation) df ;;
  df2 <- mapM (on_row backfill_start) df1 ;;
  df3 <- mapM (on_row backfill_end) df2 ;;
  mapM (on_row convert_row) df3.

Definition on_snd {A B : Type} (f : A -> B) (x : Z * A) : Z * B :=
  (fst x, f (snd x)).

(** [get_game_shifts], from the provider's list of records on. *)
Definition get_game_shifts (game_shifts : list RawShift)
  : result (DataFrame Shift) :=
  let game_shifts_df := range_index 0 game_shifts in
  match game_shifts_df with
  | [] => Ok empty_frame
  | _ :: _ =>
      match dropna game_shifts_df with
      | [] => Ok empty_frame
      | df =>
          secs <- local_seconds df ;;
          Ok (mkFrame shift_columns
                (map (on_snd (fun r => finish_row (elapsed r))) secs))
      end
  end.

(** ** The pairwise overlap engine: [get_overlapping_shifts] *)

(** One row of the result: the player of the source shift, the partner and
    the seconds they shared. *)
Record OverlapRecord : Type := mkOverlap {
  overlap_gameId : Z;
  overlap_playerId : Z;
  playerId2 : Z;
  seconds : Z
}.

(** A Python dictionary with integer keys.  Keys stay in the order of their
    first insertion; storing under a key that is present replaces the value
    and keeps the position. *)
Definition dict (V : Type) : Type := list (Z * V).

Fixpoint dict_set {V : Type} (k : Z) (v : V) (d : dict V) : dict V :=
  match d with
  | [] => [(k, v)]
  | (k', v') :: d' =>
      if k' =? k then (k', v) :: d' else (k', v') :: dict_set k v d'
  end.

Fixpoint dict_get {V : Type} (k : Z) (d : dict V) : option V :=
  match d with
  | [] => None
  | (k', v') :: d' => if k' =? k then Some v' else dict_get k d'
  end.

Definition isin (x : Z) (l : list Z) : bool := existsb (Z.eqb x) l.

Definition index {R : Type} (df : list (Z * R)) : list Z := map fst df.

(** [df.drop(labels)]: every row carrying one of the labels goes. *)
Definition drop {R : Type} (labels : list Z) (df : list (Z * R))
  : list (Z * R) :=
  filter (fun r => negb (isin (fst r) labels)) df.

(** [game_shifts_df.loc[game_shifts_df.gameId == gameId]] *)
Definition select_game (df : list (Z * Shift)) (g : Z) : list (Z * Shift) :=
  filter (fun r => gameId (snd r) =? g) df.

(** [groupby(["playerId", "teamId"])]: the groups come in increasing order of
    their key, one group per key. *)
Definition key_ltb (k1 k2 : Z * Z) : bool :=
  (fst k1 <? fst k2) || ((fst k1 =? fst k2) && (snd k1 <? snd k2)).

Definition key_eqb (k1 k2 : Z * Z) : bool :=
  (fst k1 =? fst k2) && (snd k1 =? snd k2).

Fixpoint insert_key (k : Z * Z) (l : list (Z * Z)) : list (Z * Z) :=
  match l with
  | [] => [k]
  | h :: t =>
      if key_ltb k h then k :: l
      else if key_eqb k h then l
      else h :: insert_key k t
  end.

Definition shift_key (r : Z * Shift) : Z * Z :=
  (playerId (snd r), teamId (snd r)).

Definition group_keys (df : list (Z * Shift)) : list (Z * Z) :=
  fold_right insert_key [] (map shift_key df).

Definition get_group (df : list (Z * Shift)) (k : Z * Z) : list (Z * Shift) :=
  filter (fun r => key_eqb (shift_key r) k) df.

(** Lines 179-182: the shifts a shift is compared with. *)
Definition other_players (all_game_shifts shifts : list (Z * Shift))
           (checked_players : list Z) : list (Z * Shift) :=
  filter (fun r => negb (isin (playerId (snd r)) checked_players))
         (drop (index shifts) all_game_shifts).

(** Line 185. *)
Definition correct_team (player_team : Z * Z) (o : Shift) : bool :=
  teamId o =? snd player_team.

(** Lines 188-193, on the end points: [a0], [a1] of the current shift and
    [b0], [b1] of the other player's shift. *)
Definition overlaps (a0 a1 b0 b1 : Z) : bool :=
  ((a0 <=? b0) && (b0 <? a1)) || ((b0 <? a0) && (a0 <? b1)).

Definition correct_time (shift o : Shift) : bool :=
  overlaps (startTime shift) (endTime shift) (startTime o) (endTime o).

(** Line 196. *)
Definition shift_overlap (player_team : Z * Z) (shift : Shift)
           (others : list (Z * Shift)) : list (Z * Shift) :=
  filter (fun o => correct_team player_team (snd o) && correct_time shift (snd o))
         others.

(** Lines 204-220, on the end points: the seconds two shifts share.  The
    two calls of [len] may raise OverflowError, the first element of an empty
    [shift_range] raises IndexError. *)
Definition overlap_seconds (a0 a1 b0 b1 : Z) : result Z :=
  n <- Py.len_range b0 b1 ;;
  if n =? 0 then Ok 0
  else
    lo_shift <- Py.range_first a0 a1 ;;
    lo_other <- Py.range_first b0 b1 ;;
    hi_shift <- Py.range_last a0 a1 ;;
    hi_other <- Py.range_last b0 b1 ;;
    Py.len_range (Z.max lo_shift lo_other) (Z.min hi_shift hi_other + 1).

(** Lines 199-220: the dictionary of one shift, filled by the loop over the
    overlapping shifts. *)
Definition overlap_step (shift : Shift) (overlap_dict : dict Z)
           (overlapping_shift : Z * Shift) : result (dict Z) :=
  n <- overlap_seconds (startTime shift) (endTime shift)
         (startTime (snd overlapping_shift)) (endTime (snd overlapping_shift)) ;;
  Ok (dict_set (playerId (snd overlapping_shift)) n overlap_dict).

Definition overlap_dict_of (shift : Shift) (overlapping : list (Z * Shift))
  : result (dict Z) :=
  foldM (overlap_step shift) overlapping [].

(** The row that [json_data] holds for one shift: the shift and one cell per
    key of its dictionary. *)
Definition WideRow : Type := (Shift * dict Z)%type.

(** Lines 177-239: the body of the loop over the shifts of one player. *)
Definition shift_step (all_game_shifts shifts : list (Z * Shift))
           (player_team : Z * Z) (checked_players : list Z)
           (overlap_dict_all : dict WideRow) (shift : Z * Shift)
  : result (dict WideRow) :=
  let others := other_players all_game_shifts shifts checked_players in
  d <- overlap_dict_of (snd shift) (shift_overlap player_team (snd shift) others) ;;
  Ok (dict_set (fst shift) (snd shift, d) overlap_dict_all).

(** Lines 175-242: the body of the loop over the players; the state is
    [overlap_dict_all] and [checked_players]. *)
Definition player_step (all_game_shifts : list (Z * Shift))
           (st : dict WideRow * list Z) (player_team : Z * Z)
  : result (dict WideRow * list Z) :=
  let shifts := get_group all_game_shifts player_team in
  acc <- foldM (shift_step all_game_shifts shifts player_team (snd st))
               shifts (fst st) ;;
  Ok (acc, (snd st ++ [fst player_team])%list).

(** The columns of the wide table [pd.concat(overlap_dict_all)]: the partner
    ids in the order in which they first appear. *)
Fixpoint first_seen (seen l : list Z) : list Z :=
  match l with
  | [] => []
  | x :: l' => if isin x seen then first_seen seen l'
               else x :: first_seen (x :: seen) l'
  end.

Definition wide_columns (wide : dict WideRow) : list Z :=
  first_seen [] (flat_map (fun r => map fst (snd (snd r))) wide).

(** Lines 248-256: wide to long.  [pd.melt] walks the partner columns and,
    within a column, the rows; [dropna] keeps the cells that hold a value. *)
Definition melt_cell (c : Z) (r : Z * WideRow) : list OverlapRecord :=
  match dict_get c (snd (snd r)) with
  | Some v => [mkOverlap (gameId (fst (snd r))) (playerId (fst (snd r))) c v]
  | None => []
  end.

Definition melt (wide : dict WideRow) : list OverlapRecord :=
  flat_map (fun c => flat_map (melt_cell c) wide) (wide_columns wide).

(** [get_overlapping_shifts] on the rows of the data frame. *)
Definition get_overlapping_shifts (game_shifts_df : list (Z * Shift)) (g : Z)
  : result (list OverlapRecord) :=
  let all_game_shifts := select_game game_shifts_df g in
  st <- foldM (player_step all_game_shifts) (group_keys all_game_shifts) ([], []) ;;
  match fst st with
  | [] => Raise ValueError     (* pd.concat: no objects to concatenate *)
  | wide => Ok (melt wide)
  end.

(** ** Predicates and sample data used in the statements *)

(** Periods and seconds for which the int64 arithmetic of lines 87-98 does
    not wrap around (and which a float64 column holds exactly). *)
Definition small_period (p : Z) : Prop :=
  - 1000000000000 <= p <= 1000000000000.

Definition small_seconds (s : Z) : Prop :=
  - 1000000000000000 <= s <= 1000000000000000.

(** What the reconciler makes of a row [x] whose time columns hold
    period-local seconds. *)
Definition reconciles (x y : Z * Shift) : Prop :=
  let s := 1200 * (period (snd x) - 1) + startTime (snd x) in
  let e := 1200 * (period (snd x) - 1) + endTime (snd x) in
  fst y = fst x
  /\ startTime (snd y) = s
  /\ endTime (snd y) = (if e <? s then e + 1200 else e)
  /\ duration (snd y) = endTime (snd y) - startTime (snd y)
  /\ startTime (snd y) <= endTime (snd y).

(** In every row of the wide table, no partner is the player of the row. *)
Definition partners_differ (wide : dict WideRow) : Prop :=
  forall lbl sh d, In (lbl, (sh, d)) wide ->
  forall k, In k (map fst d) -> k <> playerId sh.

(** The players of the rows of the wide table are among [players]. *)
Definition sources_in (wide : dict WideRow) (players : list Z) : Prop :=
  forall lbl sh d, In (lbl, (sh, d)) wide -> In (playerId sh) players.

(** A pair of players is held on one side only: when a row of one player has
    a cell for the other, no row of the other has a cell for the first. *)
Definition one_sided (wide : dict WideRow) : Prop :=
  forall lbl sh d lbl' sh' d',
    In (lbl, (sh, d)) wide -> In (lbl', (sh', d')) wide ->
    In (playerId sh') (map fst d) -> ~ In (playerId sh) (map fst d').

(** Strings of decimal digits, and strings without a colon. *)
Fixpoint all_digits (s : string) : bool :=
  match s with
  | EmptyString => true
  | String c s' => Py.is_digit c && all_digits s'
  end.

Fixpoint no_colon (s : string) : bool :=
  match s with
  | EmptyString => true
  | String c s' => negb (Ascii.eqb c ":") && no_colon s'
  end.

(** The order in which [groupby] yields the groups. *)
Definition key_lt (k1 k2 : Z * Z) : Prop := key_ltb k1 k2 = true.

(** A provider record with all eight cells. *)
Definition raw (g p : Z) (s : string) (pe : Z) (e d : string) : RawShift :=
  mkRaw (Some g) (Some p) (Some s) (Some pe) (Some e) (Some d)
        (Some 10) (Some "Team").

(** A goal, which the provider lists among the shifts: it has a null cell. *)
Definition goal_event : RawShift :=
  mkRaw (Some 1) (Some 7) (Some "05:00") (Some 2) (Some "05:00") None
        (Some 10) (Some "Team").

(** A reconciled shift of [s] to [e] seconds in period 1. *)
Definition shift (g p s e t : Z) : Shift := mkShift g p s 1 e (e - s) t "Team".

(** The shifts of two games in one table. *)
Definition two_games : list (Z * Shift) :=
  [(0, shift 1 7 0 100 10); (1, shift 1 8 50 150 10);
   (2, shift 2 7 0 100 10); (3, shift 2 8 20 150 10)].

(** ** Predicates for the further properties *)

(** Two rows with the same label and the same game, player, period and
    team; the time columns may differ, also in type. *)
Definition kept {A B : Type} (x : Z * ShiftRow A) (y : Z * ShiftRow B) : Prop :=
  fst y = fst x
  /\ gameId (snd y) = gameId (snd x)
  /\ playerId (snd y) = playerId (snd x)
  /\ period (snd y) = period (snd x)
  /\ teamId (snd y) = teamId (snd x)
  /\ teamName (snd y) = teamName (snd x).

(** The text mm:ss of [m] minutes and [s] seconds, two digits each. *)
Definition digit_char_of (d : Z) : ascii := ascii_of_nat (48 + Z.to_nat d).

Definition two_digits (n : Z) : string :=
  String (digit_char_of (n / 10)) (String (digit_char_of (n mod 10)) "").

Definition mmss (m s : Z) : string := two_digits m ++ ":" ++ two_digits s.

(** A record with all three times given as mm:ss. *)
Definition timed (r : ShiftRow string) (ms ss me se md sd : Z) : Prop :=
  startTime r = mmss ms ss /\ endTime r = mmss me se /\ duration r = mmss md sd
  /\ 0 <= ms <= 99 /\ 0 <= ss <= 99 /\ 0 <= me <= 99 /\ 0 <= se <= 99
  /\ 0 <= md <= 99 /\ 0 <= sd <= 99.

(** What the reconciler makes of a record whose start is [s] and whose end
    is [e] period-local seconds. *)
Definition reconciled (s e : Z) (x : Z * ShiftRow string) (y : Z * Shift)
  : Prop :=
  let s' := 1200 * (period (snd x) - 1) + s in
  let e' := 1200 * (period (snd x) - 1) + e in
  kept x y
  /\ startTime (snd y) = s'
  /\ endTime (snd y) = (if e' <? s' then e' + 1200 else e')
  /\ duration (snd y) = endTime (snd y) - startTime (snd y).

(** Every cell of the wide table comes from two shifts of the table: the
    shift of the row and a shift of the partner, on the same team, that
    passed the overlap test and gave the value. *)
Definition cell_from (all_game_shifts : list (Z * Shift)) (sh : Shift)
           (k v : Z) : Prop :=
  exists j b,
    In (j, b) all_game_shifts
    /\ playerId b = k /\ teamId b = teamId sh
    /\ correct_time sh b = true
    /\ overlap_seconds (startTime sh) (endTime sh) (startTime b) (endTime b)
       = Ok v.

Definition cells_sound (all_game_shifts : list (Z * Shift))
           (wide : dict WideRow) : Prop :=
  forall lbl sh d, In (lbl, (sh, d)) wide ->
    In (lbl, sh) all_game_shifts
    /\ forall k v, In (k, v) d -> cell_from all_game_shifts sh k v.

(** ** The schedule functions (nhl/schedule_scraper.py) and the season loop *)

(** The exceptions of these functions, and their outcomes.  A request is a
    function from the address to the decoded answer: the network is the
    caller's. *)
Inductive error : Type :=
| KeyError (key : string)
| NameError (name : string)
| AssertionError
| Builtin (e : exn).

Inductive outcome (A : Type) : Type :=
| Return (a : A)
| Fail (e : error).

Arguments Return {A} a.
Arguments Fail {A} e.

Definition and_then {A B : Type} (m : outcome A) (k : A -> outcome B)
  : outcome B :=
  match m with
  | Return a => k a
  | Fail e => Fail e
  end.

Notation "x <~ m ;; k" := (and_then m (fun x => k))
  (at level 61, m at next level, right associativity).

Definition builtin {A : Type} (m : result A) : outcome A :=
  match m with
  | Ok a => Return a
  | Raise e => Fail (Builtin e)
  end.

(** [obj[key]] on a decoded JSON object: a key that is absent raises. *)
Definition item {A : Type} (key : string) (v : option A) : outcome A :=
  match v with
  | Some a => Return a
  | None => Fail (KeyError key)
  end.

Fixpoint for_each {A B : Type} (f : A -> outcome B) (l : list A)
  : outcome (list B) :=
  match l with
  | [] => Return []
  | a :: l' => b <~ f a ;; bs <~ for_each f l' ;; Return (b :: bs)
  end.

(** The parts of the schedule answer that the code reads. *)
Record Game : Type := mkGame { gamePk : option Z }.

Record ScheduleDate : Type := mkDate { games : option (list Game) }.

Record Schedule : Type := mkSchedule {
  dates : option (list ScheduleDate);
  totalGames : option Z
}.

(** [get_game_ids_between_dates]: first the games of every date, then the
    id of every game. *)
Definition date_url (start_date end_date : string) : string :=
  "https://statsapi.web.nhl.com/api/v1/schedule?startDate=" ++ start_date
  ++ "&endDate=" ++ end_date.

Definition get_game_ids_between_dates (requests_get : string -> Schedule)
           (start_date end_date : string) : outcome (list Z) :=
  games_between_dates <~ item "dates"
                           (dates (requests_get (date_url start_date end_date))) ;;
  date_games <~ for_each (fun date => item "games" (games date))
                         games_between_dates ;;
  date_game_ids <~ for_each (for_each (fun game => item "gamePk" (gamePk game)))
                            date_games ;;
  Return (List.concat date_game_ids).

(** [get_number_of_games_in_season]: the season is a string or an integer. *)
Definition season_url (year : Z) : string :=
  "https://statsapi.web.nhl.com/api/v1/schedule?season=" ++ Py.str year
  ++ Py.str (year + 1) ++ "&gameType=R".

Definition int_of_season (season : string + Z) : outcome Z :=
  match season with
  | inl s => builtin (Py.int s)
  | inr z => Return z
  end.

Definition get_number_of_games_in_season (season : string + Z)
           (requests_session : string -> Schedule) : outcome Z :=
  year <~ int_of_season season ;;
  item "totalGames" (totalGames (requests_session (season_url year))).










(** What [get_game_ids_between_dates] reads in an answer: whether a key is
    absent, and the ids that are there. *)
Definition absent {A : Type} (v : option A) : bool :=
  match v with
  | Some _ => false
  | None => true
  end.

Definition games_of (d : ScheduleDate) : list Game :=
  match games d with
  | Some gs => gs
  | None => []
  end.

Definition id_of (game : Game) : Z :=
  match gamePk game with
  | Some id => id
  | None => 0
  end.

Definition date_without_games (ds : list ScheduleDate) : bool :=
  existsb (fun d => absent (games d)) ds.

Definition game_without_id (ds : list ScheduleDate) : bool :=
  existsb (fun d => existsb (fun game => absent (gamePk game)) (games_of d)) ds.

Definition listed_ids (ds : list ScheduleDate) : list Z :=
  List.concat (map (fun d => map id_of (games_of d)) ds).

(** An answer that is the same for every address. *)
Definition one_schedule (s : Schedule) (url : string) : Schedule := s.

(** ** [standardize_coordinates] (nhl/utils.py) *)

(** The columns of the play-by-play table that the function reads; the
    others ride along unchanged.  The coordinates are whole feet, or NaN
    ([None]); the arithmetic on them is exact in floating point. *)
Record Event : Type := mkEvent {
  GameId : Z;
  Team : option string;
  HomeTeamName : string;
  PeriodNumber : Z;
  EventType : string;
  AwayGoalieOnIce : bool;
  HomeGoalieOnIce : bool;
  X : option Z;
  Y : option Z
}.

(** A row of the result: the event with the two new columns. *)
Record Adjusted : Type := mkAdjusted {
  event : Event;
  X_adj : option Z;
  Y_adj : option Z
}.

Definition IsHome (e : Event) : bool :=
  match Team e with
  | Some t => String.eqb t (HomeTeamName e)
  | None => false
  end.

Definition Overtime (e : Event) : bool := PeriodNumber e =? 4.

(** Lines 327-330: the shots on a goal that is tended, up to period 4. *)
Definition is_shot_event (e : Event) : bool :=
  existsb (String.eqb (EventType e)) ["GOAL"; "MISSED SHOT"; "SHOT"]
  && ((IsHome e && AwayGoalieOnIce e) || (negb (IsHome e) && HomeGoalieOnIce e))
  && (PeriodNumber e <? 5).

(** The key of the groups and of the merge. *)
Definition EventKey : Type := (Z * bool * Z * bool)%type.

Definition event_key (e : Event) : EventKey :=
  (GameId e, IsHome e, PeriodNumber e, Overtime e).

Definition event_key_eqb (k1 k2 : EventKey) : bool :=
  match k1, k2 with
  | (g1, h1, p1, o1), (g2, h2, p2, o2) =>
      (g1 =? g2) && Bool.eqb h1 h2 && (p1 =? p2) && Bool.eqb o1 o2
  end.

Definition bool_ltb (b1 b2 : bool) : bool := negb b1 && b2.

Definition event_key_ltb (k1 k2 : EventKey) : bool :=
  match k1, k2 with
  | (g1, h1, p1, o1), (g2, h2, p2, o2) =>
      (g1 <? g2)
      || ((g1 =? g2)
          && (bool_ltb h1 h2
              || (Bool.eqb h1 h2
                  && ((p1 <? p2) || ((p1 =? p2) && bool_ltb o1 o2)))))
  end.

Fixpoint insert_event_key (k : EventKey) (l : list EventKey) : list EventKey :=
  match l with
  | [] => [k]
  | h :: t =>
      if event_key_ltb k h then k :: l
      else if event_key_eqb k h then l
      else h :: insert_event_key k t
  end.

Definition event_group_keys (es : list Event) : list EventKey :=
  fold_right insert_event_key [] (map event_key es).

(** The values of a column that are not NaN. *)
Definition known (l : list (option Z)) : list Z :=
  flat_map (fun v => match v with Some x => [x] | None => [] end) l.

Fixpoint insert_value (x : Z) (l : list Z) : list Z :=
  match l with
  | [] => [x]
  | h :: t => if x <=? h then x :: l else h :: insert_value x t
  end.

Definition sort_values (l : list Z) : list Z := fold_right insert_value [] l.

(** Twice the median of the values: for an even number of values the
    median is half the sum of the two in the middle. *)
Definition twice_median (l : list Z) : option Z :=
  let s := sort_values l in
  let n := List.length s in
  match n with
  | O => None
  | _ => if Nat.even n
         then Some (nth (n / 2 - 1) s 0 + nth (n / 2) s 0)
         else Some (2 * nth (n / 2) s 0)
  end.

(** [np.sign] of the median, NaN for no value. *)
Definition median_sign (l : list Z) : option Z :=
  option_map Z.sgn (twice_median l).

(** Lines 333-340: one row per group of shots. *)
Record GroupMedian : Type := mkGroupMedian {
  group : EventKey;
  Xmedian2 : option Z;   (* twice the median *)
  Size : nat;
  Sign : option Z
}.

Definition aggregate (shot_events : list Event) (k : EventKey) : GroupMedian :=
  let members := filter (fun e => event_key_eqb (event_key e) k) shot_events in
  let xs := known (map X members) in
  mkGroupMedian k (twice_median xs) (List.length members) (median_sign xs).

Definition game_median_x (shot_events : list Event) : list GroupMedian :=
  map (aggregate shot_events) (event_group_keys shot_events).

(** The product of two floats, NaN when one is. *)
Definition times (x s : option Z) : option Z :=
  match x, s with
  | Some a, Some b => Some (a * b)
  | _, _ => None
  end.

Definition adjust (e : Event) (sign : option Z) : Adjusted :=
  mkAdjusted e (times (X e) sign) (times (Y e) sign).

(** Lines 343-350: the left merge gives an event one row per group with
    its key, and one row with NaN when there is none. *)
Definition merge_left (e : Event) (medians : list GroupMedian) : list Adjusted :=
  match filter (fun m => event_key_eqb (event_key e) (group m)) medians with
  | [] => [adjust e None]
  | matches => map (fun m => adjust e (Sign m)) matches
  end.

Definition standardize_coordinates (pbp : list Event) : list Adjusted :=
  let shot_events := filter is_shot_event pbp in
  flat_map (fun e => merge_left e (game_median_x shot_events)) pbp.

(** The sign that the shots of the group of [e] give. *)
Definition group_sign (pbp : list Event) (e : Event) : option Z :=
  median_sign
    (known (map X (filter (fun e' => is_shot_event e'
                                     && event_key_eqb (event_key e') (event_key e))
                          pbp))).

(** The adjusted x of the shots of the group of [e]. *)
Definition adjusted_shots (out : list Adjusted) (e : Event) : list Z :=
  known (map X_adj
           (filter (fun r => is_shot_event (event r)
                             && event_key_eqb (event_key (event r)) (event_key e))
                   out)).

Definition event_key_lt (k1 k2 : EventKey) : Prop := event_key_ltb k1 k2 = true.

(** ** Further sample data and helpers of the statements *)

(** Whether the two digits of [n] are read back as [n], without a colon. *)
Definition reads_back (n : Z) : bool :=
  match Py.int (two_digits n) with
  | Ok z => (z =? n) && no_colon (two_digits n)
  | Raise _ => false
  end.

(** A record with its three times in seconds. *)
Definition seconds_of (r : ShiftRow string) (s e d : Z) : Shift :=
  mkShift (gameId r) (playerId r) s (period r) e d (teamId r) (teamName r).

(** A goal of the shoot-out. *)
Definition shootout_goal : Event :=
  mkEvent 2021020001 (Some "TBL") "TBL" 5 "GOAL" true true (Some 80) (Some 3).

(** * Properties *)

(** ** Some runs of the two functions *)

Example int_examples :
  Py.int "18" = Ok 18 /\ Py.int " -07 " = Ok (-7) /\ Py.int "" = Raise ValueError
  /\ Py.int "1_0" = Ok 10 /\ Py.int "5:" = Raise ValueError.
Proof. repeat split; reflexivity. Qed.

Example get_game_shifts_plain :
  get_game_shifts [raw 1 7 "05:00" 2 "05:45" "00:45"]
  = Ok (mkFrame shift_columns [(0, mkShift 1 7 1500 2 1545 45 10 "Team")]).
Proof. reflexivity. Qed.

Example get_game_shifts_missing_end :
  get_game_shifts [raw 1 7 "05:50" 1 "" "00:45"]
  = Ok (mkFrame shift_columns [(0, mkShift 1 7 350 1 395 45 10 "Team")]).
Proof. reflexivity. Qed.

Example overlap_50 :
  get_overlapping_shifts [(0, shift 1 7 0 100 10); (1, shift 1 8 50 150 10)] 1
  = Ok [mkOverlap 1 7 8 50].
Proof. reflexivity. Qed.

Example overlap_touching :
  get_overlapping_shifts [(0, shift 1 7 0 100 10); (1, shift 1 8 100 200 10)] 1
  = Ok [].
Proof. reflexivity. Qed.

Example overlap_other_team :
  get_overlapping_shifts [(0, shift 1 7 0 100 10); (1, shift 1 8 50 150 11)] 1
  = Ok [].
Proof. reflexivity. Qed.

Example overlap_order :
  get_overlapping_shifts
    [(0, shift 1 9 0 100 10); (1, shift 1 8 50 150 10); (2, shift 1 7 20 60 10)] 1
  = Ok [mkOverlap 1 7 9 40; mkOverlap 1 8 9 50; mkOverlap 1 7 8 10].
Proof. reflexivity. Qed.

Example overlap_no_shift :
  get_overlapping_shifts [(0, shift 2 7 0 100 10)] 1 = Raise ValueError.
Proof. reflexivity. Qed.

(** ** General facts about the error monad *)

Lemma bind_Ok {A B : Type} (m : result A) (k : A -> result B) (b : B) :
  bind m k = Ok b -> exists a, m = Ok a /\ k a = Ok b.
Proof.
  destruct m as [a | e]; simpl; intros H.
  - exists a. split; [reflexivity | exact H].
  - discriminate H.
Qed.

Ltac bind_inv H :=
  let a := fresh "x" in
  let Ha := fresh "Hx" in
  apply bind_Ok in H; destruct H as [a [Ha H]].

Tactic Notation "bind_names" hyp(H) ident(a) ident(Ha) :=
  apply bind_Ok in H; destruct H as [a [Ha H]].

Lemma foldM_invariant {A S : Type} (P : S -> Prop) (f : S -> A -> result S)
      (l : list A) :
  (forall s a s', In a l -> P s -> f s a = Ok s' -> P s') ->
  forall s s', P s -> foldM f l s = Ok s' -> P s'.
Proof.
  induction l as [| a l IH]; simpl; intros Hf s s' Hs H.
  - injection H as <-. exact Hs.
  - bind_inv H. apply (IH (fun s0 b s1 Hb => Hf s0 b s1 (or_intror Hb)) x s').
    + apply (Hf s a x); auto.
    + exact H.
Qed.

Lemma mapM_In {A B : Type} (f : A -> result B) (l : list A) (l' : list B) :
  mapM f l = Ok l' ->
  forall a, In a l -> exists b, f a = Ok b /\ In b l'.
Proof.
  revert l'. induction l as [| a0 l IH]; simpl; intros l' H a Ha.
  - contradiction.
  - bind_inv H. bind_inv H. injection H as <-.
    destruct Ha as [-> | Ha].
    + exists x. split; [assumption | left; reflexivity].
    + destruct (IH _ Hx0 a Ha) as [b [Hb Hin]].
      exists b. split; [assumption | right; assumption].
Qed.

Lemma mapM_In_inv {A B : Type} (f : A -> result B) (l : list A) (l' : list B) :
  mapM f l = Ok l' ->
  forall b, In b l' -> exists a, f a = Ok b /\ In a l.
Proof.
  revert l'. induction l as [| a0 l IH]; simpl; intros l' H b Hb.
  - injection H as <-. contradiction.
  - bind_inv H. bind_inv H. injection H as <-.
    destruct Hb as [<- | Hb].
    + exists a0. split; [assumption | left; reflexivity].
    + destruct (IH _ Hx0 b Hb) as [a [Ha Hin]].
      exists a. split; [assumption | right; assumption].
Qed.

Lemma mapM_Raise {A B : Type} (f : A -> result B) (l : list A) (e : exn) :
  (forall a e', f a = Raise e' -> e' = e) ->
  forall a, In a l -> f a = Raise e -> mapM f l = Raise e.
Proof.
  intros Hone a. induction l as [| a0 l IH]; simpl; intros Ha Hf.
  - contradiction.
  - destruct Ha as [-> | Ha].
    + rewrite Hf. reflexivity.
    + destruct (f a0) as [b | e'] eqn:E; simpl.
      * rewrite (IH Ha Hf). reflexivity.
      * rewrite (Hone _ _ E). reflexivity.
Qed.

(** ** The overlap of two intervals *)

(** Case analysis on the comparisons of a goal. *)
Ltac cmp_cases x y R := destruct (R x y); try lia.

Ltac Zbool :=
  repeat first
    [ match goal with |- context [?x <? ?y] => cmp_cases x y Z.ltb_spec end
    | match goal with |- context [?x <=? ?y] => cmp_cases x y Z.leb_spec end
    | match goal with |- context [?x =? ?y] => cmp_cases x y Z.eqb_spec end ].

Lemma overlaps_iff (a0 a1 b0 b1 : Z) :
  overlaps a0 a1 b0 b1 = true <->
  (a0 <= b0 /\ b0 < a1) \/ (b0 < a0 /\ a0 < b1).
Proof.
  unfold overlaps. rewrite orb_true_iff, !andb_true_iff.
  rewrite Z.leb_le, !Z.ltb_lt. reflexivity.
Qed.

Lemma maxsize_eq : Py.maxsize = 9223372036854775807.
Proof. reflexivity. Qed.

Ltac range_cases :=
  unfold overlap_seconds, Py.len_range, Py.range_first, Py.range_last,
    Py.range_len;
  rewrite ?maxsize_eq in *;
  repeat (Zbool; cbn [bind]).

(** A shift that is not empty shares [max(0, min(a1,b1) - max(a0,b0))]
    seconds with any other shift whose length [len] can take. *)
Lemma overlap_seconds_nonempty (a0 a1 b0 b1 : Z) :
  a0 < a1 -> b1 - b0 <= Py.maxsize ->
  overlap_seconds a0 a1 b0 b1 = Ok (Z.max 0 (Z.min a1 b1 - Z.max a0 b0)).
Proof.
  intros Ha Hb. range_cases; try (f_equal; lia); exfalso; lia.
Qed.

(** An empty shift shares nothing with an empty one, and raises against one
    that is not empty. *)
Lemma overlap_seconds_empty (a0 a1 b0 b1 : Z) :
  a1 <= a0 -> b1 - b0 <= Py.maxsize ->
  overlap_seconds a0 a1 b0 b1 = if b0 <? b1 then Raise IndexError else Ok 0.
Proof.
  intros Ha Hb. range_cases; try reflexivity; exfalso; lia.
Qed.

(** Beyond [sys.maxsize] seconds [len] raises: line 211 takes the length of
    the partner's range, never that of the shift's own. *)
Example long_partner_overflows :
  overlap_seconds 0 100 (-1) Py.maxsize = Raise OverflowError
  /\ overlap_seconds (-1) Py.maxsize 0 100 = Ok 100.
Proof. split; reflexivity. Qed.

(** C2: for two shifts that are not empty and no longer than [sys.maxsize]
    seconds, the engine's test [correct_time] is the intersection test of
    half-open intervals [a0 < b1 /\ b0 < a1]; it gives the same answer with
    the two shifts swapped, and so does the number of seconds computed, which
    is [max(0, min(a1,b1) - max(a0,b0))]. *)
Theorem overlap_predicate_symmetric (A B : Shift) :
  startTime A < endTime A -> startTime B < endTime B ->
  endTime A - startTime A <= Py.maxsize ->
  endTime B - startTime B <= Py.maxsize ->
  (correct_time A B = true <->
     startTime A < endTime B /\ startTime B < endTime A)
  /\ correct_time B A = correct_time A B
  /\ overlap_seconds (startTime B) (endTime B) (startTime A) (endTime A)
     = overlap_seconds (startTime A) (endTime A) (startTime B) (endTime B)
  /\ overlap_seconds (startTime A) (endTime A) (startTime B) (endTime B)
     = Ok (Z.max 0 (Z.min (endTime A) (endTime B)
                    - Z.max (startTime A) (startTime B))).
Proof.
  intros Ha Hb La Lb. unfold correct_time. split; [| split; [| split]].
  - rewrite overlaps_iff. lia.
  - apply eq_true_iff_eq. rewrite !overlaps_iff. lia.
  - rewrite !overlap_seconds_nonempty by assumption. f_equal. lia.
  - apply overlap_seconds_nonempty; assumption.
Qed.

Lemma overlap_predicate_symmetric_witness :
  (correct_time (shift 1 7 0 100 10) (shift 1 8 50 150 10) = true <->
     0 < 150 /\ 50 < 100)
  /\ correct_time (shift 1 8 50 150 10) (shift 1 7 0 100 10)
     = correct_time (shift 1 7 0 100 10) (shift 1 8 50 150 10)
  /\ overlap_seconds 50 150 0 100 = overlap_seconds 0 100 50 150
  /\ overlap_seconds 0 100 50 150 = Ok 50.
Proof.
  apply (overlap_predicate_symmetric (shift 1 7 0 100 10) (shift 1 8 50 150 10));
    cbn [shift startTime endTime]; rewrite ?maxsize_eq; lia.
Defined.

(** C1: a shift of zero duration, compared with a partner's shift that
    contains its instant, makes the engine raise IndexError; nothing is
    recorded, where the overlap of the two is 0. *)
Theorem zero_duration_shift_raises :
  overlaps 10 10 5 20 = true
  /\ Z.max 0 (Z.min 10 20 - Z.max 10 5) = 0
  /\ overlap_seconds 10 10 5 20 = Raise IndexError
  /\ get_overlapping_shifts
       [(0, shift 1 7 10 10 10); (1, shift 1 8 5 20 10)] 1 = Raise IndexError.
Proof. repeat split. Qed.

(** C6: one shift of player 7 overlaps two shifts of player 8; the second
    value replaces the first under the key 8, and one record comes out. *)
Theorem two_partner_shifts_one_record :
  shift_overlap (7, 10) (shift 1 7 0 100 10)
    [(1, shift 1 8 0 30 10); (2, shift 1 8 80 120 10)]
  = [(1, shift 1 8 0 30 10); (2, shift 1 8 80 120 10)]
  /\ overlap_dict_of (shift 1 7 0 100 10)
       [(1, shift 1 8 0 30 10); (2, shift 1 8 80 120 10)] = Ok [(8, 20)]
  /\ get_overlapping_shifts
       [(0, shift 1 7 0 100 10); (1, shift 1 8 0 30 10);
        (2, shift 1 8 80 120 10)] 1
     = Ok [mkOverlap 1 7 8 20].
Proof. repeat split. Qed.

(** C3: a goalkeeper (player 1) on the ice for a whole period and a skater
    (player 2) with three shifts in it: three pairs of shifts overlap, by 40,
    50 and 60 seconds; the result holds the last one only, so two of the
    three pairs are recorded zero times. *)
Theorem overlapping_pairs_lost :
  let recs := [mkOverlap 1 1 2 60] in
  get_overlapping_shifts
    [(0, shift 1 1 0 1200 10); (1, shift 1 2 0 40 10);
     (2, shift 1 2 300 350 10); (3, shift 1 2 900 960 10)] 1 = Ok recs
  /\ overlaps 0 1200 0 40 = true /\ overlaps 0 1200 300 350 = true
  /\ ~ In (mkOverlap 1 1 2 40) recs /\ ~ In (mkOverlap 1 1 2 50) recs.
Proof.
  repeat split; intros [H | []]; discriminate H.
Qed.

(** ** The reconciler *)

(** The reconciler raises no exception but ValueError. *)
Lemma int_raises (s : string) (e : exn) : Py.int s = Raise e -> e = ValueError.
Proof.
  unfold Py.int.
  destruct (match Py.strip s with EmptyString => None | String c t => _ end);
    intros H; [discriminate H | injection H as <-; reflexivity].
Qed.

Lemma final_two_minutes_raises (r : ShiftRow string) (e : exn) :
  final_two_minutes r = Raise e -> e = ValueError.
Proof.
  unfold final_two_minutes.
  destruct (Py.int (Py.slice 0 2 (startTime r))) eqn:E; simpl; intros H.
  - discriminate H.
  - injection H as <-. exact (int_raises _ _ E).
Qed.

Lemma end_of_regulation_raises (x : Z * ShiftRow string) (e : exn) :
  on_row end_of_regulation x = Raise e -> e = ValueError.
Proof.
  unfold on_row, end_of_regulation.
  destruct (final_two_minutes (snd x)) eqn:E; simpl; intros H.
  - discriminate H.
  - injection H as <-. exact (final_two_minutes_raises _ _ E).
Qed.

(** A row without start time stops the reconciler at [final_two_minutes]:
    [int] of the empty string raises. *)
Lemma missing_start_time_raises (df : list (Z * ShiftRow string))
      (x : Z * ShiftRow string) :
  In x df -> startTime (snd x) = "" -> local_seconds df = Raise ValueError.
Proof.
  intros Hin Hs. unfold local_seconds.
  rewrite (mapM_Raise (on_row end_of_regulation) df ValueError
             end_of_regulation_raises x Hin); [reflexivity |].
  unfold on_row, end_of_regulation, final_two_minutes. rewrite Hs. reflexivity.
Qed.

Lemma get_game_shifts_missing_start (game_shifts : list RawShift)
      (i : Z) (r : ShiftRow string) :
  In (i, r) (dropna (range_index 0 game_shifts)) -> startTime r = "" ->
  get_game_shifts game_shifts = Raise ValueError.
Proof.
  intros Hin Hs. unfold get_game_shifts.
  destruct (range_index 0 game_shifts) as [| x l]; [contradiction Hin |].
  pose proof (missing_start_time_raises _ (i, r) Hin Hs) as E.
  destruct (dropna (x :: l)) as [| y l']; [contradiction Hin |].
  rewrite E. reflexivity.
Qed.

(** C7: a record without start time, with end time 10:00 and duration 01:00,
    is not given the start time 9:0: the reconciler raises ValueError, also
    when the other records of the game are complete.  A record without end
    time gets start time plus duration, component by component. *)
Theorem missing_start_not_backfilled :
  get_game_shifts [raw 1 7 "" 1 "10:00" "01:00"] = Raise ValueError
  /\ get_game_shifts [raw 1 8 "09:00" 1 "10:00" "01:00";
                      raw 1 7 "" 1 "10:00" "01:00"] = Raise ValueError
  /\ backfill_start (mkShift 1 7 "" 1 "10:00" "01:00" 10 "Team")
     = Ok (mkShift 1 7 "9:0" 1 "10:00" "01:00" 10 "Team")
  /\ backfill_end (mkShift 1 7 "09:50" 1 "" "01:15" 10 "Team")
     = Ok (mkShift 1 7 "09:50" 1 "10:65" "01:15" 10 "Team").
Proof. repeat split. Qed.

(** No provider record passes [dropna]: the table is empty. *)
Lemma dropna_none (l : list (Z * RawShift)) :
  (forall x, In x l -> complete_row (snd x) = None) -> dropna l = [].
Proof.
  induction l as [| [i r] l IH]; simpl; intros H.
  - reflexivity.
  - pose proof (H (i, r) (or_introl eq_refl)) as E. simpl in E. rewrite E.
    apply IH.
    intros x Hx. apply H. right. exact Hx.
Qed.

Lemma range_index_In {A : Type} (l : list A) (from : Z) (x : Z * A) :
  In x (range_index from l) -> In (snd x) l.
Proof.
  revert from. induction l as [| a l IH]; simpl; intros from H.
  - exact H.
  - destruct H as [<- | H]; [left; reflexivity | right; exact (IH _ H)].
Qed.

(** C8: when the provider has no record for the game, or every record has a
    null cell (a goal), the reconciler returns the empty table with the
    eight columns, and does not raise. *)
Theorem no_usable_rows_empty_frame (game_shifts : list RawShift) :
  (forall r, In r game_shifts -> complete_row r = None) ->
  exists df,
    get_game_shifts game_shifts = Ok df
    /\ rows df = []
    /\ columns df = ["gameId"; "playerId"; "startTime"; "period";
                     "endTime"; "duration"; "teamId"; "teamName"].
Proof.
  intros H. exists empty_frame. split; [| split; reflexivity].
  unfold get_game_shifts.
  destruct (range_index 0 game_shifts) as [| x l] eqn:E; [reflexivity |].
  rewrite <- E. rewrite dropna_none; [reflexivity |].
  intros y Hy. apply H. exact (range_index_In _ _ _ Hy).
Qed.

Lemma no_usable_rows_empty_frame_witness :
  exists df,
    get_game_shifts [goal_event; goal_event] = Ok df
    /\ rows df = []
    /\ columns df = ["gameId"; "playerId"; "startTime"; "period";
                     "endTime"; "duration"; "teamId"; "teamName"].
Proof.
  apply (no_usable_rows_empty_frame [goal_event; goal_event]).
  intros r [<- | [<- | []]]; reflexivity.
Defined.

(** ** The engine and the game it is asked for *)

Lemma filter_idem {A : Type} (f : A -> bool) (l : list A) :
  filter f (filter f l) = filter f l.
Proof.
  induction l as [| x l IH]; simpl.
  - reflexivity.
  - destruct (f x) eqn:E; simpl; rewrite ?E, IH; reflexivity.
Qed.

Lemma select_game_idem (df : list (Z * Shift)) (g : Z) :
  select_game (select_game df g) g = select_game df g.
Proof. apply filter_idem. Qed.

(** C9, as stated, fails: a table with the shifts of games 1 and 2 is not
    rejected; the engine answers for game 1. *)
Lemma two_games_not_rejected :
  map (fun r => gameId (snd r)) two_games = [1; 1; 2; 2]
  /\ get_overlapping_shifts two_games 1 = Ok [mkOverlap 1 7 8 50]
  /\ ~ (exists e, get_overlapping_shifts two_games 1 = Raise e).
Proof.
  repeat split. intros [e H]. discriminate H.
Qed.

(** C9, amended: the engine keeps the rows of the game it is asked for and
    works on them alone: on a table with several games it gives what it
    gives on the rows of that game, whatever the other rows are. *)
Theorem other_games_ignored (df : list (Z * Shift)) (g : Z) :
  get_overlapping_shifts df g = get_overlapping_shifts (select_game df g) g.
Proof.
  unfold get_overlapping_shifts. rewrite select_game_idem. reflexivity.
Qed.

(** ** The partner of a record *)

Lemma isin_In (x : Z) (l : list Z) : isin x l = true <-> In x l.
Proof.
  unfold isin. rewrite existsb_exists. split.
  - intros [y [Hy E]]. apply Z.eqb_eq in E. subst y. exact Hy.
  - intros H. exists x. split; [exact H | apply Z.eqb_refl].
Qed.

Lemma dict_set_In {V : Type} (k : Z) (v : V) (d : dict V) (k' : Z) (x : V) :
  In (k', x) (dict_set k v d) -> In (k', x) d \/ (k' = k /\ x = v).
Proof.
  induction d as [| [k0 v0] d IH]; simpl.
  - intros [H | []]. injection H as <- <-. right. split; reflexivity.
  - destruct (Z.eqb_spec k0 k) as [-> | Hne]; simpl.
    + intros [H | H].
      * injection H as <- <-. right. split; reflexivity.
      * left. right. exact H.
    + intros [H | H].
      * left. left. exact H.
      * destruct (IH H) as [H' | H']; [left; right; exact H' | right; exact H'].
Qed.

Lemma dict_set_keys {V : Type} (k : Z) (v : V) (d : dict V) (k' : Z) :
  In k' (map fst (dict_set k v d)) -> In k' (map fst d) \/ k' = k.
Proof.
  intros H. apply in_map_iff in H. destruct H as [[k1 x] [E H]].
  simpl in E. subst k1. destruct (dict_set_In _ _ _ _ _ H) as [H' | [H' _]].
  - left. apply in_map_iff. exists (k', x). split; [reflexivity | exact H'].
  - right. exact H'.
Qed.

Lemma dict_get_In {V : Type} (k : Z) (d : dict V) (v : V) :
  dict_get k d = Some v -> In (k, v) d.
Proof.
  induction d as [| [k0 v0] d IH]; simpl.
  - discriminate.
  - destruct (Z.eqb_spec k0 k) as [-> | Hne].
    + intros H. injection H as <-. left. reflexivity.
    + intros H. right. exact (IH H).
Qed.

(** The keys of the dictionary of a shift are players of the shifts it was
    compared with. *)
Lemma overlap_dict_keys (sh : Shift) (l : list (Z * Shift)) :
  forall d0 d, foldM (overlap_step sh) l d0 = Ok d ->
  forall k, In k (map fst d) ->
    In k (map fst d0) \/ exists o, In o l /\ playerId (snd o) = k.
Proof.
  induction l as [| o l IH]; simpl; intros d0 d H k Hk.
  - injection H as <-. left. exact Hk.
  - bind_inv H. unfold overlap_step in Hx. bind_inv Hx. injection Hx as <-.
    destruct (IH _ _ H k Hk) as [H1 | [o' [Ho' E]]].
    + destruct (dict_set_keys _ _ _ _ H1) as [H2 | ->].
      * left. exact H2.
      * right. exists o. split; [left; reflexivity | reflexivity].
    + right. exists o'. split; [right; exact Ho' | exact E].
Qed.

(** A dictionary filled by [dict_set] holds every key once: the row of a
    shift has one cell for a partner, however many of the partner's shifts
    overlap it. *)
Lemma dict_set_NoDup {V : Type} (k : Z) (v : V) (d : dict V) :
  NoDup (map fst d) -> NoDup (map fst (dict_set k v d)).
Proof.
  induction d as [| [k0 v0] d IH]; simpl; intros H.
  - constructor; [intros [] | constructor].
  - destruct (Z.eqb_spec k0 k) as [-> | Hne]; simpl; [exact H |].
    inversion H as [| ? ? Hnin Hd]; subst. constructor; [| exact (IH Hd)].
    intros Hin. destruct (dict_set_keys _ _ _ _ Hin) as [Hin' | E].
    + exact (Hnin Hin').
    + exact (Hne E).
Qed.

Lemma overlap_dict_NoDup (sh : Shift) (l : list (Z * Shift)) (d : dict Z) :
  overlap_dict_of sh l = Ok d -> NoDup (map fst d).
Proof.
  unfold overlap_dict_of.
  apply (foldM_invariant (fun d0 => NoDup (map fst d0))).
  - intros s a s' _ Hs H. unfold overlap_step in H. bind_inv H.
    injection H as <-. exact (dict_set_NoDup _ _ _ Hs).
  - constructor.
Qed.

(** A shift is never compared with a shift of its own player: those are
    the rows of the group, which [drop] removes, and the team test leaves no
    other row of that player. *)
Lemma shift_overlap_other_player (all_game_shifts : list (Z * Shift))
      (player_team : Z * Z) (checked : list Z) (sh o : Z * Shift) :
  let shifts := get_group all_game_shifts player_team in
  In sh shifts ->
  In o (shift_overlap player_team (snd sh)
          (other_players all_game_shifts shifts checked)) ->
  playerId (snd o) <> playerId (snd sh).
Proof.
  intros shifts Hsh Ho E.
  unfold shift_overlap in Ho. apply filter_In in Ho. destruct Ho as [Ho Hc].
  apply andb_true_iff in Hc. destruct Hc as [Hteam _].
  unfold correct_team in Hteam. apply Z.eqb_eq in Hteam.
  unfold other_players in Ho. apply filter_In in Ho. destruct Ho as [Ho _].
  unfold drop in Ho. apply filter_In in Ho. destruct Ho as [Hall Hlab].
  apply negb_true_iff in Hlab.
  assert (Hk : key_eqb (shift_key sh) player_team = true).
  { unfold shifts, get_group in Hsh. apply filter_In in Hsh. apply Hsh. }
  unfold key_eqb, shift_key in Hk. simpl in Hk.
  apply andb_true_iff in Hk. destruct Hk as [Hp _]. apply Z.eqb_eq in Hp.
  assert (Hin : In o shifts).
  { unfold shifts, get_group. apply filter_In. split; [exact Hall |].
    unfold key_eqb, shift_key. simpl.
    apply andb_true_iff. split; apply Z.eqb_eq; congruence. }
  assert (Hl : isin (fst o) (index shifts) = true).
  { apply isin_In. unfold index. apply in_map. exact Hin. }
  congruence.
Qed.

Lemma shift_step_partners_differ (all_game_shifts : list (Z * Shift))
      (player_team : Z * Z) (checked : list Z)
      (acc acc' : dict WideRow) (sh : Z * Shift) :
  In sh (get_group all_game_shifts player_team) ->
  partners_differ acc ->
  shift_step all_game_shifts (get_group all_game_shifts player_team)
             player_team checked acc sh = Ok acc' ->
  partners_differ acc'.
Proof.
  intros Hsh Hacc H. unfold shift_step in H. bind_inv H. injection H as <-.
  intros lbl s d Hin k Hk.
  destruct (dict_set_In _ _ _ _ _ Hin) as [Hold | [_ Hnew]].
  - exact (Hacc lbl s d Hold k Hk).
  - injection Hnew as -> ->.
    destruct (overlap_dict_keys _ _ _ _ Hx k Hk) as [[] | [o [Ho <-]]].
    exact (shift_overlap_other_player _ _ _ _ _ Hsh Ho).
Qed.

Lemma player_step_partners_differ (all_game_shifts : list (Z * Shift))
      (st st' : dict WideRow * list Z) (player_team : Z * Z) :
  partners_differ (fst st) ->
  player_step all_game_shifts st player_team = Ok st' ->
  partners_differ (fst st').
Proof.
  intros Hst H. unfold player_step in H. bind_inv H. injection H as <-. simpl.
  revert Hx. apply foldM_invariant; [| exact Hst].
  intros s a s' Ha Hs. apply shift_step_partners_differ; assumption.
Qed.

(** C10: the two players of a record differ: [playerId2] is never the player
    of the source shift. *)
Theorem partner_is_another_player (game_shifts_df : list (Z * Shift)) (g : Z)
        (recs : list OverlapRecord) :
  get_overlapping_shifts game_shifts_df g = Ok recs ->
  forall r, In r recs -> playerId2 r <> overlap_playerId r.
Proof.
  intros H r Hr. unfold get_overlapping_shifts in H. bind_inv H.
  assert (Hw : partners_differ (fst x)).
  { revert Hx.
    apply (foldM_invariant (fun st => partners_differ (fst st))).
    - intros s a s' _ Hs. apply player_step_partners_differ. exact Hs.
    - intros lbl sh d []. }
  destruct (fst x) as [| w0 wide] eqn:E; [discriminate H |].
  injection H as <-. rewrite <- E in Hr. unfold melt in Hr.
  apply in_flat_map in Hr. destruct Hr as [c [_ Hr]].
  apply in_flat_map in Hr. destruct Hr as [[lbl [sh d]] [Hin Hr]].
  unfold melt_cell in Hr. simpl in Hr.
  destruct (dict_get c d) as [v |] eqn:G; [| contradiction].
  destruct Hr as [<- | []]. simpl. rewrite E in Hin.
  apply (Hw lbl sh d Hin). apply dict_get_In in G.
  apply in_map_iff. exists (c, v). split; [reflexivity | exact G].
Qed.

Lemma partner_is_another_player_witness :
  get_overlapping_shifts
    [(0, shift 1 9 0 100 10); (1, shift 1 8 50 150 10);
     (2, shift 1 7 20 60 10)] 1
  = Ok [mkOverlap 1 7 9 40; mkOverlap 1 8 9 50; mkOverlap 1 7 8 10]
  /\ Forall (fun r => playerId2 r <> overlap_playerId r)
       [mkOverlap 1 7 9 40; mkOverlap 1 8 9 50; mkOverlap 1 7 8 10].
Proof.
  split; [reflexivity |]. apply Forall_forall.
  apply (partner_is_another_player
           [(0, shift 1 9 0 100 10); (1, shift 1 8 50 150 10);
            (2, shift 1 7 20 60 10)] 1).
  reflexivity.
Defined.

(** ** One side for each pair of players *)

Lemma melt_In (wide : dict WideRow) (r : OverlapRecord) :
  In r (melt wide) ->
  exists lbl sh d,
    In (lbl, (sh, d)) wide
    /\ overlap_playerId r = playerId sh
    /\ In (playerId2 r) (map fst d).
Proof.
  unfold melt. intros Hr.
  apply in_flat_map in Hr. destruct Hr as [c [_ Hr]].
  apply in_flat_map in Hr. destruct Hr as [[lbl [sh d]] [Hin Hr]].
  unfold melt_cell in Hr. simpl in Hr.
  destruct (dict_get c d) as [v |] eqn:G; [| contradiction].
  destruct Hr as [<- | []]. exists lbl, sh, d. simpl.
  repeat split; [exact Hin |]. apply dict_get_In in G.
  apply in_map_iff. exists (c, v). split; [reflexivity | exact G].
Qed.

(** A shift is not compared with the shifts of a player whose turn is over. *)
Lemma shift_overlap_unchecked (all_game_shifts shifts : list (Z * Shift))
      (player_team : Z * Z) (checked : list Z) (sh : Shift) (o : Z * Shift) :
  In o (shift_overlap player_team sh
          (other_players all_game_shifts shifts checked)) ->
  ~ In (playerId (snd o)) checked.
Proof.
  intros Ho Hc. unfold shift_overlap in Ho. apply filter_In in Ho.
  destruct Ho as [Ho _]. unfold other_players in Ho. apply filter_In in Ho.
  destruct Ho as [_ Hn]. apply negb_true_iff in Hn.
  apply isin_In in Hc. congruence.
Qed.

Lemma shift_step_one_sided (all_game_shifts : list (Z * Shift))
      (player_team : Z * Z) (checked : list Z)
      (acc acc' : dict WideRow) (sh : Z * Shift) :
  In sh (get_group all_game_shifts player_team) ->
  sources_in acc (fst player_team :: checked) /\ one_sided acc ->
  shift_step all_game_shifts (get_group all_game_shifts player_team)
             player_team checked acc sh = Ok acc' ->
  sources_in acc' (fst player_team :: checked) /\ one_sided acc'.
Proof.
  intros Hsh [Hsrc Hone] H. unfold shift_step in H. bind_inv H.
  injection H as <-.
  assert (Hp : playerId (snd sh) = fst player_team).
  { unfold get_group in Hsh. apply filter_In in Hsh. destruct Hsh as [_ Hk].
    unfold key_eqb, shift_key in Hk. simpl in Hk.
    apply andb_true_iff in Hk. destruct Hk as [Hk _].
    apply Z.eqb_eq in Hk. exact Hk. }
  assert (Hkeys : forall k, In k (map fst x) ->
                            ~ In k (fst player_team :: checked)).
  { intros k Hk.
    destruct (overlap_dict_keys _ _ _ _ Hx k Hk) as [[] | [o [Ho <-]]].
    intros [E | Hc].
    - apply (shift_overlap_other_player _ _ _ _ _ Hsh Ho). congruence.
    - exact (shift_overlap_unchecked _ _ _ _ _ _ Ho Hc). }
  split.
  - intros lbl s d Hin.
    destruct (dict_set_In _ _ _ _ _ Hin) as [Hold | [_ Hnew]].
    + exact (Hsrc _ _ _ Hold).
    + injection Hnew as -> ->. left. symmetry. exact Hp.
  - intros lbl s d lbl' s' d' Hin Hin' Hk Hk'.
    destruct (dict_set_In _ _ _ _ _ Hin) as [Hold | [_ Hnew]];
      destruct (dict_set_In _ _ _ _ _ Hin') as [Hold' | [_ Hnew']].
    + exact (Hone _ _ _ _ _ _ Hold Hold' Hk Hk').
    + injection Hnew' as -> ->.
      exact (Hkeys _ Hk' (Hsrc _ _ _ Hold)).
    + injection Hnew as -> ->.
      exact (Hkeys _ Hk (Hsrc _ _ _ Hold')).
    + injection Hnew as -> ->. injection Hnew' as -> _.
      apply (Hkeys _ Hk). left. symmetry. exact Hp.
Qed.

Lemma player_step_one_sided (all_game_shifts : list (Z * Shift))
      (st st' : dict WideRow * list Z) (player_team : Z * Z) :
  sources_in (fst st) (snd st) /\ one_sided (fst st) ->
  player_step all_game_shifts st player_team = Ok st' ->
  sources_in (fst st') (snd st') /\ one_sided (fst st').
Proof.
  intros [Hsrc Hone] H. unfold player_step in H. bind_inv H.
  injection H as <-. simpl.
  assert (Hx' : sources_in x (fst player_team :: snd st) /\ one_sided x).
  { revert Hx.
    apply (foldM_invariant
             (fun acc => sources_in acc (fst player_team :: snd st)
                         /\ one_sided acc)).
    - intros s a s' Ha Hs. apply shift_step_one_sided; assumption.
    - split; [| exact Hone]. intros lbl sh d Hin. right.
      exact (Hsrc _ _ _ Hin). }
  destruct Hx' as [Hsrc' Hone']. split; [| exact Hone'].
  intros lbl sh d Hin. apply in_or_app.
  destruct (Hsrc' _ _ _ Hin) as [<- | Hc];
    [right; left; reflexivity | left; exact Hc].
Qed.

(** The dedup of the engine: two players meet on one side only.  When a
    record has player [p] and partner [q], no record has player [q] and
    partner [p]. *)
Lemma records_one_sided (game_shifts_df : list (Z * Shift)) (g : Z)
      (recs : list OverlapRecord) :
  get_overlapping_shifts game_shifts_df g = Ok recs ->
  forall r1 r2, In r1 recs -> In r2 recs ->
  ~ (overlap_playerId r2 = playerId2 r1 /\ playerId2 r2 = overlap_playerId r1).
Proof.
  intros H r1 r2 H1 H2 [E1 E2]. unfold get_overlapping_shifts in H.
  bind_inv H.
  assert (Hw : sources_in (fst x) (snd x) /\ one_sided (fst x)).
  { revert Hx.
    apply (foldM_invariant
             (fun st => sources_in (fst st) (snd st) /\ one_sided (fst st))).
    - intros s a s' _ Hs. apply player_step_one_sided. exact Hs.
    - split; [intros lbl sh d [] | intros lbl sh d lbl' sh' d' []]. }
  destruct Hw as [_ Hone].
  destruct (fst x) as [| w0 wide] eqn:E; [discriminate H |].
  injection H as <-.
  destruct (melt_In _ _ H1) as [l1 [s1 [d1 [I1 [P1 K1]]]]].
  destruct (melt_In _ _ H2) as [l2 [s2 [d2 [I2 [P2 K2]]]]].
  apply (Hone _ _ _ _ _ _ I1 I2); congruence.
Qed.

(** ** Every pair of players that shared the ice is reported *)

Lemma key_eqb_eq (k1 k2 : Z * Z) : key_eqb k1 k2 = true <-> k1 = k2.
Proof.
  destruct k1 as [p1 t1], k2 as [p2 t2]. unfold key_eqb. simpl.
  rewrite andb_true_iff, !Z.eqb_eq. split.
  - intros [-> ->]. reflexivity.
  - intros E. injection E as -> ->. split; reflexivity.
Qed.

Lemma key_lt_iff (k1 k2 : Z * Z) :
  key_lt k1 k2 <-> fst k1 < fst k2 \/ (fst k1 = fst k2 /\ snd k1 < snd k2).
Proof.
  unfold key_lt, key_ltb.
  rewrite orb_true_iff, andb_true_iff, !Z.ltb_lt, Z.eqb_eq. reflexivity.
Qed.

Lemma key_lt_trans (k1 k2 k3 : Z * Z) :
  key_lt k1 k2 -> key_lt k2 k3 -> key_lt k1 k3.
Proof. rewrite !key_lt_iff. lia. Qed.

Lemma insert_key_In (k k' : Z * Z) (l : list (Z * Z)) :
  In k (insert_key k' l) <-> k = k' \/ In k l.
Proof.
  induction l as [| h t IH]; simpl.
  - intuition.
  - destruct (key_ltb k' h) eqn:L; simpl.
    + intuition.
    + destruct (key_eqb k' h) eqn:E; simpl.
      * apply key_eqb_eq in E. subst h. intuition.
      * rewrite IH. intuition.
Qed.

Lemma insert_key_sorted (k : Z * Z) (l : list (Z * Z)) :
  StronglySorted key_lt l -> StronglySorted key_lt (insert_key k l).
Proof.
  induction l as [| h t IH]; simpl; intros H.
  - constructor; constructor.
  - inversion H as [| ? ? Ht Hh]; subst.
    destruct (key_ltb k h) eqn:L.
    + constructor; [exact H |]. constructor; [exact L |].
      apply Forall_forall. intros x Hx.
      apply (key_lt_trans k h x L). rewrite Forall_forall in Hh. auto.
    + destruct (key_eqb k h) eqn:E; [exact H |].
      constructor; [exact (IH Ht) |].
      apply Forall_forall. intros x Hx. apply insert_key_In in Hx.
      destruct Hx as [-> | Hx]; [| rewrite Forall_forall in Hh; auto].
      apply key_lt_iff.
      assert (Hne : k <> h).
      { intros ->. rewrite (proj2 (key_eqb_eq h h) eq_refl) in E.
        discriminate E. }
      assert (Hnl : ~ key_lt k h) by (unfold key_lt; congruence).
      rewrite key_lt_iff in Hnl.
      destruct k as [p1 t1], h as [p2 t2]. simpl in *.
      assert (p1 <> p2 \/ t1 <> t2).
      { destruct (Z.eq_dec p1 p2) as [-> | ?]; [right | left; assumption].
        intros ->. apply Hne. reflexivity. }
      lia.
Qed.

Lemma group_keys_sorted (df : list (Z * Shift)) :
  StronglySorted key_lt (group_keys df).
Proof.
  unfold group_keys. induction (map shift_key df) as [| k l IH]; simpl.
  - constructor.
  - apply insert_key_sorted. exact IH.
Qed.

Lemma group_keys_In (df : list (Z * Shift)) (x : Z * Shift) :
  In x df -> In (shift_key x) (group_keys df).
Proof.
  unfold group_keys. intros H. apply (in_map shift_key) in H.
  induction (map shift_key df) as [| k l IH]; simpl in *; [contradiction |].
  apply insert_key_In. destruct H as [-> | H]; [left; reflexivity |].
  right. exact (IH H).
Qed.

Lemma foldM_app {A S : Type} (f : S -> A -> result S) (l1 l2 : list A)
      (s s' : S) :
  foldM f (l1 ++ l2) s = Ok s' ->
  exists s1, foldM f l1 s = Ok s1 /\ foldM f l2 s1 = Ok s'.
Proof.
  revert s. induction l1 as [| a l1 IH]; simpl; intros s H.
  - exists s. split; [reflexivity | exact H].
  - bind_inv H. destruct (IH _ H) as [s1 [H1 H2]].
    exists s1. rewrite Hx. simpl. split; assumption.
Qed.

(** After the turns of the players [l], [checked_players] holds them. *)
Lemma checked_players_after (all_game_shifts : list (Z * Shift))
      (l : list (Z * Z)) (st st' : dict WideRow * list Z) :
  foldM (player_step all_game_shifts) l st = Ok st' ->
  snd st' = (snd st ++ map fst l)%list.
Proof.
  revert st. induction l as [| k l IH]; simpl; intros st H.
  - injection H as <-. rewrite app_nil_r. reflexivity.
  - bind_inv H. rewrite (IH _ H).
    unfold player_step in Hx. bind_inv Hx. injection Hx as <-. simpl.
    rewrite <- app_assoc. reflexivity.
Qed.

Lemma sorted_before (k : Z * Z) (l1 l2 : list (Z * Z)) :
  StronglySorted key_lt (l1 ++ k :: l2) ->
  (forall k', In k' l1 -> key_lt k' k) /\ (forall k', In k' l2 -> key_lt k k').
Proof.
  induction l1 as [| h l1 IH]; simpl; intros H.
  - inversion H as [| ? ? _ Hk]; subst. rewrite Forall_forall in Hk.
    split; [intros k' [] | exact Hk].
  - inversion H as [| ? ? Ht Hh]; subst. rewrite Forall_forall in Hh.
    destruct (IH Ht) as [H1 H2]. split; [| exact H2].
    intros k' [<- | Hk']; [| exact (H1 _ Hk')].
    apply Hh. apply in_or_app. right. left. reflexivity.
Qed.

Lemma dict_set_self {V : Type} (k : Z) (v : V) (d : dict V) :
  In (k, v) (dict_set k v d).
Proof.
  induction d as [| [k0 v0] d IH]; simpl; [left; reflexivity |].
  destruct (Z.eqb_spec k0 k) as [-> | Hne];
    [left; reflexivity | right; exact IH].
Qed.

Lemma dict_set_other {V : Type} (k : Z) (v : V) (d : dict V) (i : Z) (x : V) :
  k <> i -> In (i, x) d -> In (i, x) (dict_set k v d).
Proof.
  intros Hne. induction d as [| [k0 v0] d IH]; simpl; [intros [] |].
  intros [E | H].
  - injection E as -> ->. destruct (Z.eqb_spec i k) as [-> | _];
      [contradiction Hne; reflexivity | left; reflexivity].
  - destruct (Z.eqb_spec k0 k); right; [exact H | exact (IH H)].
Qed.

Lemma dict_set_keys_mono {V : Type} (k : Z) (v : V) (d : dict V) (k' : Z) :
  In k' (map fst d) \/ k' = k -> In k' (map fst (dict_set k v d)).
Proof.
  intros [H | ->].
  - apply in_map_iff in H. destruct H as [[k1 x] [E H]]. simpl in E. subst k1.
    destruct (Z.eq_dec k k') as [-> | Hne].
    + apply in_map_iff. exists (k', v). split; [reflexivity | apply dict_set_self].
    + apply in_map_iff. exists (k', x).
      split; [reflexivity | exact (dict_set_other _ _ _ _ _ Hne H)].
  - apply in_map_iff. exists (k, v). split; [reflexivity | apply dict_set_self].
Qed.

Lemma dict_get_Some {V : Type} (k : Z) (d : dict V) :
  In k (map fst d) -> exists v, dict_get k d = Some v.
Proof.
  induction d as [| [k0 v0] d IH]; simpl; [intros [] |].
  destruct (Z.eqb_spec k0 k) as [-> | Hne].
  - intros _. exists v0. reflexivity.
  - intros [E | H]; [contradiction (Hne E) | exact (IH H)].
Qed.

(** Every shift the loop of lines 202-220 went over has left its player as
    a key of the dictionary. *)
Lemma overlap_dict_has_keys (sh : Shift) (l : list (Z * Shift)) :
  forall d0 d, foldM (overlap_step sh) l d0 = Ok d ->
  (forall k, In k (map fst d0) -> In k (map fst d))
  /\ (forall o, In o l -> In (playerId (snd o)) (map fst d)).
Proof.
  induction l as [| o l IH]; simpl; intros d0 d H.
  - injection H as <-. split; [auto | intros o []].
  - bind_inv H. unfold overlap_step in Hx. bind_inv Hx. injection Hx as <-.
    destruct (IH _ _ H) as [Hmono Hin]. split.
    + intros k Hk. apply Hmono, dict_set_keys_mono. left. exact Hk.
    + intros o' [<- | Ho']; [| exact (Hin _ Ho')].
      apply Hmono, dict_set_keys_mono. right. reflexivity.
Qed.

Lemma first_seen_In (x : Z) (l seen : list Z) :
  In x l -> In x seen \/ In x (first_seen seen l).
Proof.
  revert seen. induction l as [| h l IH]; simpl; intros seen H; [contradiction |].
  destruct (isin h seen) eqn:E.
  - destruct H as [-> | H]; [left; apply isin_In; exact E | exact (IH _ H)].
  - destruct H as [-> | H]; [right; left; reflexivity |].
    destruct (IH (h :: seen) H) as [[-> | Hs] | Hf].
    + right. left. reflexivity.
    + left. exact Hs.
    + right. right. exact Hf.
Qed.

(** A cell of the wide table comes out of [melt] as a record. *)
Lemma melt_complete (wide : dict WideRow) (i : Z) (sh : Shift) (d : dict Z)
      (p : Z) :
  In (i, (sh, d)) wide -> In p (map fst d) ->
  exists v, In (mkOverlap (gameId sh) (playerId sh) p v) (melt wide).
Proof.
  intros Hin Hp. destruct (dict_get_Some _ _ Hp) as [v Hv]. exists v.
  unfold melt. apply in_flat_map. exists p. split.
  - unfold wide_columns.
    destruct (first_seen_In p
                (flat_map (fun r => map fst (snd (snd r))) wide) []) as [[] | H];
      [| exact H].
    apply in_flat_map. exists (i, (sh, d)). split; [exact Hin | exact Hp].
  - apply in_flat_map. exists (i, (sh, d)). split; [exact Hin |].
    unfold melt_cell. simpl. rewrite Hv. left. reflexivity.
Qed.

(** Tables whose labels are all different. *)
Lemma unique_label {R : Type} (df : list (Z * R)) (i : Z) (x y : R) :
  NoDup (index df) -> In (i, x) df -> In (i, y) df -> x = y.
Proof.
  unfold index. induction df as [| [j z] df IH]; simpl; intros H Hx Hy.
  - contradiction.
  - inversion H as [| ? ? Hnin Hd]; subst.
    destruct Hx as [Ex | Hx]; destruct Hy as [Ey | Hy].
    + congruence.
    + injection Ex as -> ->. contradiction Hnin.
      apply in_map_iff. exists (i, y). split; [reflexivity | exact Hy].
    + injection Ey as -> ->. contradiction Hnin.
      apply in_map_iff. exists (i, x). split; [reflexivity | exact Hx].
    + exact (IH Hd Hx Hy).
Qed.

Lemma filter_unique_labels {R : Type} (f : Z * R -> bool) (df : list (Z * R)) :
  NoDup (index df) -> NoDup (index (filter f df)).
Proof.
  unfold index. induction df as [| x df IH]; simpl; intros H.
  - constructor.
  - inversion H as [| ? ? Hnin Hd]; subst.
    destruct (f x); simpl; [| exact (IH Hd)].
    constructor; [| exact (IH Hd)].
    intros Hin. apply Hnin. apply in_map_iff in Hin.
    destruct Hin as [y [E Hy]]. apply filter_In in Hy.
    apply in_map_iff. exists y. split; [exact E | apply Hy].
Qed.

(** The row of a shift stays in [overlap_dict_all] while shifts with other
    labels are processed. *)
Lemma shift_steps_keep (all_game_shifts shifts : list (Z * Shift))
      (player_team : Z * Z) (checked : list Z) (l : list (Z * Shift))
      (i : Z) (e : WideRow) (acc acc' : dict WideRow) :
  (forall x, In x l -> fst x <> i) ->
  In (i, e) acc ->
  foldM (shift_step all_game_shifts shifts player_team checked) l acc
  = Ok acc' ->
  In (i, e) acc'.
Proof.
  intros Hl Hin. apply (foldM_invariant (fun a => In (i, e) a)); [| exact Hin].
  intros s a s' Ha Hs H. unfold shift_step in H. bind_inv H.
  injection H as <-. apply dict_set_other; [exact (Hl _ Ha) | exact Hs].
Qed.

Lemma player_steps_keep (all_game_shifts : list (Z * Shift))
      (l : list (Z * Z)) (i : Z) (a : Shift) (e : WideRow)
      (st st' : dict WideRow * list Z) :
  NoDup (index all_game_shifts) ->
  In (i, a) all_game_shifts ->
  (forall k, In k l -> k <> shift_key (i, a)) ->
  In (i, e) (fst st) ->
  foldM (player_step all_game_shifts) l st = Ok st' ->
  In (i, e) (fst st').
Proof.
  intros Hnd Hia Hl Hin.
  apply (foldM_invariant (fun s => In (i, e) (fst s))); [| exact Hin].
  intros s k s' Hk Hs H. unfold player_step in H. bind_inv H.
  injection H as <-. simpl. revert Hx. apply shift_steps_keep; [| exact Hs].
  intros [j b] Hjb E. simpl in E. subst j.
  unfold get_group in Hjb. apply filter_In in Hjb. destruct Hjb as [Hb Hkey].
  rewrite (unique_label _ _ _ _ Hnd Hb Hia) in Hkey.
  apply key_eqb_eq in Hkey. exact (Hl _ Hk (eq_sym Hkey)).
Qed.

(** The dedup loses no pair of players.  In a table with different labels,
    when a shift of player [p] passes the overlap test against a shift of a
    team mate [q] with a greater id, a record with player [p] and partner
    [q] comes out, provided the engine returns. *)
Lemma records_cover_pairs (game_shifts_df : list (Z * Shift)) (g : Z)
      (recs : list OverlapRecord) (i j : Z) (a b : Shift) :
  NoDup (index (select_game game_shifts_df g)) ->
  get_overlapping_shifts game_shifts_df g = Ok recs ->
  In (i, a) (select_game game_shifts_df g) ->
  In (j, b) (select_game game_shifts_df g) ->
  teamId a = teamId b -> playerId a < playerId b ->
  correct_time a b = true ->
  exists v, In (mkOverlap g (playerId a) (playerId b) v) recs.
Proof.
  intros Hnd H Hia Hjb Hteam Hlt Htime.
  unfold get_overlapping_shifts in H. bind_names H st Hst.
  set (all := select_game game_shifts_df g) in *.
  set (ka := shift_key (i, a)).
  (* the turn of the player of [a] *)
  destruct (in_split _ _ (group_keys_In all _ Hia)) as [l1 [l2 Hkeys]].
  fold ka in Hkeys. rewrite Hkeys in Hst.
  destruct (foldM_app _ _ _ _ _ Hst) as [s1 [Hs1 Hrest]].
  simpl in Hrest. bind_names Hrest s2 Hturn.
  pose proof (group_keys_sorted all) as Hsorted. rewrite Hkeys in Hsorted.
  destruct (sorted_before _ _ _ Hsorted) as [Hbefore Hafter].
  assert (Hchecked : ~ In (playerId b) (snd s1)).
  { rewrite (checked_players_after _ _ _ _ Hs1). simpl. intros Hin.
    apply in_map_iff in Hin. destruct Hin as [k [Ek Hk]].
    pose proof (Hbefore _ Hk) as Hk'. apply key_lt_iff in Hk'.
    unfold ka, shift_key in Hk'. simpl in Hk'. lia. }
  (* the step of the shift [a] *)
  unfold player_step in Hturn. bind_names Hturn acc Hacc.
  injection Hturn as <-.
  assert (Hg : In (i, a) (get_group all ka)).
  { unfold get_group. apply filter_In. split; [exact Hia |].
    apply key_eqb_eq. reflexivity. }
  destruct (in_split _ _ Hg) as [sh1 [sh2 Hshifts]].
  rewrite Hshifts in Hacc at 2.
  destruct (foldM_app _ _ _ _ _ Hacc) as [acc1 [_ Hstep]].
  simpl in Hstep. bind_names Hstep acc2 Hacc2.
  unfold shift_step in Hacc2. bind_names Hacc2 d Hd.
  injection Hacc2 as <-.
  simpl fst in Hstep. simpl snd in Hd.
  assert (Hcand : In (j, b) (shift_overlap ka a
                               (other_players all (get_group all ka) (snd s1)))).
  { unfold shift_overlap, other_players, drop. rewrite !filter_In. simpl.
    repeat split.
    - exact Hjb.
    - apply negb_true_iff. destruct (isin j (index (get_group all ka))) eqn:E;
        [| reflexivity].
      exfalso. apply isin_In in E. unfold index in E.
      apply in_map_iff in E. destruct E as [[j' b'] [Ej Hb']]. simpl in Ej.
      subst j'. unfold get_group in Hb'. apply filter_In in Hb'.
      destruct Hb' as [Hb' Hkey].
      rewrite (unique_label _ _ _ _ Hnd Hb' Hjb) in Hkey.
      apply key_eqb_eq in Hkey. unfold ka, shift_key in Hkey. simpl in Hkey.
      injection Hkey as Hp _. lia.
    - apply negb_true_iff. destruct (isin (playerId b) (snd s1)) eqn:E;
        [| reflexivity].
      exfalso. apply Hchecked. apply isin_In. exact E.
    - apply andb_true_iff. split; [| exact Htime].
      unfold correct_team, ka, shift_key. simpl. apply Z.eqb_eq.
      symmetry. exact Hteam. }
  destruct (overlap_dict_has_keys _ _ _ _ Hd) as [_ Hkeysd].
  pose proof (Hkeysd _ Hcand) as Hcell. simpl in Hcell.
  (* the row stays to the end *)
  assert (Hrow2 : In (i, (a, d)) acc).
  { revert Hstep. apply shift_steps_keep; [| apply dict_set_self].
    intros y Hy E.
    pose proof (filter_unique_labels
                  (fun r => key_eqb (shift_key r) ka) all Hnd) as Hndg.
    fold (get_group all ka) in Hndg. rewrite Hshifts in Hndg.
    unfold index in Hndg. rewrite map_app in Hndg. simpl in Hndg.
    apply NoDup_remove_2 in Hndg. apply Hndg. apply in_or_app. right.
    rewrite <- E. apply in_map. exact Hy. }
  assert (Hrow : In (i, (a, d)) (fst st)).
  { revert Hrest. apply (player_steps_keep all l2 i a); try assumption.
    intros k Hk E. fold ka in E. subst k.
    pose proof (Hafter _ Hk) as Hk'. apply key_lt_iff in Hk'. lia. }
  destruct (fst st) as [| w0 wide] eqn:Ew; [contradiction Hrow |].
  injection H as <-.
  destruct (melt_complete _ _ _ _ _ Hrow Hcell) as [v Hv].
  exists v.
  assert (Eg : gameId a = g).
  { unfold all, select_game in Hia. apply filter_In in Hia.
    destruct Hia as [_ Eg]. apply Z.eqb_eq in Eg. exact Eg. }
  rewrite <- Eg. exact Hv.
Qed.

(** The dedup for two team mates whose shifts intersect: the pair is
    reported with the smaller id as the player and the greater as the
    partner, and never the other way round. *)
Lemma pair_reported_on_one_side (game_shifts_df : list (Z * Shift)) (g : Z)
      (recs : list OverlapRecord) (i j : Z) (a b : Shift) :
  NoDup (index (select_game game_shifts_df g)) ->
  get_overlapping_shifts game_shifts_df g = Ok recs ->
  In (i, a) (select_game game_shifts_df g) ->
  In (j, b) (select_game game_shifts_df g) ->
  teamId a = teamId b -> playerId a <> playerId b ->
  startTime a < endTime a -> startTime b < endTime b ->
  startTime a < endTime b -> startTime b < endTime a ->
  let p := Z.min (playerId a) (playerId b) in
  let q := Z.max (playerId a) (playerId b) in
  (exists v, In (mkOverlap g p q v) recs)
  /\ (forall v, ~ In (mkOverlap g q p v) recs).
Proof.
  intros Hnd H Hia Hjb Hteam Hne Ha Hb Hab Hba p q.
  assert (Hex : exists v, In (mkOverlap g p q v) recs).
  { destruct (Z.lt_ge_cases (playerId a) (playerId b)) as [Hlt | Hge].
    - unfold p, q. rewrite Z.min_l, Z.max_r by lia.
      apply (records_cover_pairs game_shifts_df g recs i j a b);
        try assumption.
      unfold correct_time. apply overlaps_iff. lia.
    - unfold p, q. rewrite Z.min_r, Z.max_l by lia.
      apply (records_cover_pairs game_shifts_df g recs j i b a);
        try assumption; [symmetry; exact Hteam | lia |].
      unfold correct_time. apply overlaps_iff. lia. }
  split; [exact Hex |].
  destruct Hex as [v0 Hv0]. intros v Hv.
  apply (records_one_sided _ _ _ H _ _ Hv0 Hv). split; reflexivity.
Qed.

(** ** Printing and reading integers *)

Lemma digit_char (c : ascii) :
  Py.is_digit c = true ->
  Py.is_space c = false /\ Ascii.eqb c "-" = false
  /\ Ascii.eqb c "+" = false /\ Ascii.eqb c ":" = false
  /\ Ascii.eqb c "_" = false.
Proof.
  destruct c as [[|] [|] [|] [|] [|] [|] [|] [|]]; intros H;
    try discriminate H; repeat split.
Qed.

Lemma string_of_uint_digits (d : Decimal.uint) :
  all_digits (NilEmpty.string_of_uint d) = true.
Proof. induction d; simpl; auto. Qed.

Lemma rstrip_digits (s : string) : all_digits s = true -> Py.rstrip s = s.
Proof.
  induction s as [| c s IH]; simpl; intros H; [reflexivity |].
  apply andb_true_iff in H. destruct H as [Hc Hs]. rewrite (IH Hs).
  destruct s; [| reflexivity].
  destruct (digit_char c Hc) as [-> _]. reflexivity.
Qed.

Lemma strip_digits (s : string) : all_digits s = true -> Py.strip s = s.
Proof.
  intros H. unfold Py.strip.
  assert (E : Py.lstrip s = s).
  { destruct s as [| c s]; [reflexivity |]. simpl in *.
    apply andb_true_iff in H. destruct H as [Hc _].
    destruct (digit_char c Hc) as [-> _]. reflexivity. }
  rewrite E. apply rstrip_digits. exact H.
Qed.

Lemma literal_digits_all (s : string) (after_digit : bool) :
  all_digits s = true -> after_digit = true \/ s <> EmptyString ->
  Py.literal_digits after_digit s = Some s.
Proof.
  revert after_digit. induction s as [| c s IH]; simpl; intros b H Hb.
  - destruct Hb as [-> | Hb]; [reflexivity | contradiction Hb; reflexivity].
  - apply andb_true_iff in H. destruct H as [Hc Hs]. rewrite Hc.
    rewrite (IH true Hs (or_introl eq_refl)). reflexivity.
Qed.

Lemma nat_literal_uint (d : Decimal.uint) :
  d <> Decimal.Nil ->
  Py.nat_literal (NilEmpty.string_of_uint d) = Some (Z.of_uint d).
Proof.
  intros Hd. unfold Py.nat_literal.
  rewrite literal_digits_all.
  - rewrite NilEmpty.usu. reflexivity.
  - apply string_of_uint_digits.
  - right. destruct d; simpl; try discriminate. contradiction Hd. reflexivity.
Qed.

Lemma of_uint_to_uint (p : positive) : Z.of_uint (Pos.to_uint p) = Z.pos p.
Proof. exact (DecimalZ.of_to (Z.pos p)). Qed.

Lemma string_of_pos (p : positive) :
  exists c t, NilEmpty.string_of_uint (Pos.to_uint p) = String c t
              /\ Py.is_digit c = true.
Proof.
  pose proof (DecimalPos.Unsigned.to_uint_nonnil p) as Hn.
  pose proof (string_of_uint_digits (Pos.to_uint p)) as Hd.
  destruct (NilEmpty.string_of_uint (Pos.to_uint p)) as [| c t] eqn:E.
  - destruct (Pos.to_uint p); try discriminate E. contradiction Hn. reflexivity.
  - exists c, t. simpl in Hd. apply andb_true_iff in Hd.
    split; [reflexivity | apply Hd].
Qed.

Lemma str_pos (p : positive) :
  Py.str (Z.pos p) = NilEmpty.string_of_uint (Pos.to_uint p)
  /\ Py.str (Z.neg p) = String "-" (NilEmpty.string_of_uint (Pos.to_uint p)).
Proof.
  pose proof (DecimalPos.Unsigned.to_uint_nonnil p) as Hn.
  unfold Py.str. simpl. unfold NilZero.string_of_uint.
  destruct (Pos.to_uint p); try (split; reflexivity).
  contradiction Hn. reflexivity.
Qed.

(** [int(str(z)) == z] *)
Lemma int_str (z : Z) : Py.int (Py.str z) = Ok z.
Proof.
  destruct z as [| p | p]; [reflexivity | |].
  - destruct (str_pos p) as [-> _].
    pose proof (DecimalPos.Unsigned.to_uint_nonnil p) as Hn.
    pose proof (nat_literal_uint _ Hn) as Hl.
    unfold Py.int. rewrite strip_digits by apply string_of_uint_digits.
    destruct (string_of_pos p) as [c [t [E Hc]]]. rewrite E in *.
    destruct (digit_char c Hc) as [_ [-> [-> _]]].
    rewrite Hl, of_uint_to_uint. reflexivity.
  - destruct (str_pos p) as [_ ->].
    pose proof (DecimalPos.Unsigned.to_uint_nonnil p) as Hn.
    pose proof (nat_literal_uint _ Hn) as Hl.
    pose proof (string_of_uint_digits (Pos.to_uint p)) as Hd.
    unfold Py.int, Py.strip. simpl Py.lstrip. simpl Py.rstrip.
    rewrite (rstrip_digits _ Hd).
    destruct (string_of_pos p) as [c [t [E Hc]]]. rewrite E in *.
    simpl. rewrite Hl, of_uint_to_uint. reflexivity.
Qed.

Lemma digits_no_colon (s : string) : all_digits s = true -> no_colon s = true.
Proof.
  induction s as [| c s IH]; simpl; intros H; [reflexivity |].
  apply andb_true_iff in H. destruct H as [Hc Hs].
  destruct (digit_char c Hc) as [_ [_ [_ [-> _]]]]. simpl. exact (IH Hs).
Qed.

Lemma str_no_colon (z : Z) : no_colon (Py.str z) = true.
Proof.
  destruct z as [| p | p]; [reflexivity | |].
  - destruct (str_pos p) as [-> _].
    apply digits_no_colon, string_of_uint_digits.
  - destruct (str_pos p) as [_ ->]. simpl.
    apply digits_no_colon, string_of_uint_digits.
Qed.

Lemma split_no_colon (s : string) :
  no_colon s = true -> Py.split ":" s = [s].
Proof.
  induction s as [| c s IH]; simpl; intros H; [reflexivity |].
  apply andb_true_iff in H. destruct H as [Hc Hs].
  apply negb_true_iff in Hc. rewrite Hc, (IH Hs). reflexivity.
Qed.

Lemma split_colon (s t : string) :
  no_colon s = true -> no_colon t = true ->
  Py.split ":" (s ++ String ":" t) = [s; t].
Proof.
  intros Hs Ht. induction s as [| c s IH]; simpl.
  - rewrite (split_no_colon _ Ht). reflexivity.
  - simpl in Hs. apply andb_true_iff in Hs. destruct Hs as [Hc Hs].
    apply negb_true_iff in Hc. rewrite Hc, (IH Hs). reflexivity.
Qed.

(** The seconds of a time that the backfill has printed. *)
Lemma to_seconds_str (m sec : Z) :
  to_seconds (Py.str m ++ ":" ++ Py.str sec) = Ok (m * 60 + sec).
Proof.
  unfold to_seconds.
  change (Py.str m ++ ":" ++ Py.str sec)
    with (Py.str m ++ String ":" (Py.str sec)).
  rewrite split_colon by apply str_no_colon.
  rewrite !int_str. reflexivity.
Qed.

(** The backfill of a missing end time: minutes plus minutes and seconds
    plus seconds, each on its side of the colon; read back as a time, it is
    the start plus the duration. *)
Lemma backfill_end_seconds (r : ShiftRow string) (sm dm ss ds : Z) :
  endTime r = "" ->
  Py.int (Py.slice 0 2 (startTime r)) = Ok sm ->
  Py.int (Py.slice 0 2 (duration r)) = Ok dm ->
  Py.int (Py.slice_from 3 (startTime r)) = Ok ss ->
  Py.int (Py.slice_from 3 (duration r)) = Ok ds ->
  backfill_end r
  = Ok (set_endTime (Py.str (sm + dm) ++ ":" ++ Py.str (ss + ds)) r)
  /\ to_seconds (Py.str (sm + dm) ++ ":" ++ Py.str (ss + ds))
     = Ok ((sm * 60 + ss) + (dm * 60 + ds)).
Proof.
  intros He Hsm Hdm Hss Hds. split.
  - unfold backfill_end, missing_end_time. rewrite He, Hsm, Hdm, Hss, Hds.
    reflexivity.
  - rewrite to_seconds_str. f_equal. lia.
Qed.

(** The backfill of a missing start time, taken alone, subtracts in the same
    way. *)
Lemma backfill_start_seconds (r : ShiftRow string) (em dm es ds : Z) :
  startTime r = "" ->
  Py.int (Py.slice 0 2 (endTime r)) = Ok em ->
  Py.int (Py.slice 0 2 (duration r)) = Ok dm ->
  Py.int (Py.slice_from 3 (endTime r)) = Ok es ->
  Py.int (Py.slice_from 3 (duration r)) = Ok ds ->
  backfill_start r
  = Ok (set_startTime (Py.str (em - dm) ++ ":" ++ Py.str (es - ds)) r)
  /\ to_seconds (Py.str (em - dm) ++ ":" ++ Py.str (es - ds))
     = Ok ((em * 60 + es) - (dm * 60 + ds)).
Proof.
  intros Hs Hem Hdm Hes Hds. split.
  - unfold backfill_start, missing_start_time.
    rewrite Hs, Hem, Hdm, Hes, Hds. reflexivity.
  - rewrite to_seconds_str. f_equal. lia.
Qed.

(** ** Reconciled intervals *)

Lemma int64_small (z : Z) :
  - 9223372036854775808 <= z < 9223372036854775808 -> int64 z = z.
Proof.
  intros H. unfold int64.
  change (2 ^ 63) with 9223372036854775808.
  change (2 ^ 64) with 18446744073709551616.
  rewrite Z.mod_small by lia. lia.
Qed.

(** With a period near 2^63 / 1200 the product of lines 87-88 wraps around:
    a shift from 05:00 to 05:45 gets a negative start. *)
Example elapsed_wraps :
  finish_row (elapsed (mkShift 1 7 300 7686143364045648 345 45 10 "Team"))
  = mkShift 1 7 (-9223372036854774916) 7686143364045648
            (-9223372036854774871) 45 10 "Team".
Proof. reflexivity. Qed.

(** The last steps on one row whose period and seconds are small: nothing
    wraps around, the start is the period-local start plus the periods
    before, the end likewise, with one more period when it would come before
    the start, and the duration is the difference of the two. *)
Lemma finish_row_exact (r : Shift) :
  small_period (period r) ->
  small_seconds (startTime r) -> small_seconds (endTime r) ->
  let s := 1200 * (period r - 1) + startTime r in
  let e := 1200 * (period r - 1) + endTime r in
  let r' := finish_row (elapsed r) in
  startTime r' = s
  /\ endTime r' = (if e <? s then e + 1200 else e)
  /\ duration r' = endTime r' - startTime r'.
Proof.
  unfold small_period, small_seconds. intros Hp Hs He.
  unfold finish_row, elapsed, period_shift.
  cbn [startTime endTime duration period].
  rewrite (int64_small (period r - 1)) by lia.
  rewrite (int64_small (1200 * (period r - 1))) by lia.
  rewrite (int64_small (1200 * (period r - 1) + startTime r)) by lia.
  rewrite (int64_small (1200 * (period r - 1) + endTime r)) by lia.
  cbv zeta.
  destruct (Z.ltb_spec (1200 * (period r - 1) + endTime r)
                       (1200 * (period r - 1) + startTime r)).
  - rewrite (int64_small (1200 * (period r - 1) + endTime r + 1200)) by lia.
    rewrite int64_small by lia. repeat split.
  - rewrite int64_small by lia. repeat split.
Qed.

Lemma Forall2_map_r {A B : Type} (R : A -> B -> Prop) (f : A -> B) (l : list A) :
  (forall a, In a l -> R a (f a)) -> Forall2 R l (map f l).
Proof.
  induction l as [| a l IH]; simpl; intros H.
  - constructor.
  - constructor; [apply H; left; reflexivity |].
    apply IH. intros b Hb. apply H. right. exact Hb.
Qed.

Lemma get_game_shifts_rows (game_shifts : list RawShift)
      (secs : list (Z * Shift)) :
  local_seconds (dropna (range_index 0 game_shifts)) = Ok secs ->
  get_game_shifts game_shifts
  = Ok (mkFrame shift_columns
          (map (on_snd (fun r => finish_row (elapsed r))) secs)).
Proof.
  intros H. unfold get_game_shifts.
  destruct (range_index 0 game_shifts) as [| x l] eqn:E.
  - simpl in H. injection H as <-. reflexivity.
  - rewrite <- E in *. clear E x l.
    destruct (dropna (range_index 0 game_shifts)) as [| y l'].
    + simpl in H. injection H as <-. reflexivity.
    + rewrite H. reflexivity.
Qed.

(** C4: a record whose start and end, after the backfill, lie between 0 and
    1200 period-local seconds (the period boundary 20:00 included) and whose
    period is small comes out of the reconciler, under its label, as a shift
    that ends no earlier than it starts and has the difference of end and
    start as its duration: the period-local times have got 1200 seconds for
    every period before, an end before the start has got 1200 seconds more,
    and the duration comes from the end points.  The other records of the
    game only have to be readable. *)
Theorem reconciled_interval (game_shifts : list RawShift)
        (secs : list (Z * Shift)) (x : Z * Shift) :
  local_seconds (dropna (range_index 0 game_shifts)) = Ok secs ->
  In x secs ->
  0 <= startTime (snd x) <= 1200 -> 0 <= endTime (snd x) <= 1200 ->
  small_period (period (snd x)) ->
  exists df y,
    get_game_shifts game_shifts = Ok df
    /\ In y (rows df)
    /\ reconciles x y
    /\ startTime (snd y) <= endTime (snd y)
    /\ duration (snd y) = endTime (snd y) - startTime (snd y).
Proof.
  intros H Hin Hs He Hp.
  exists (mkFrame shift_columns
            (map (on_snd (fun r => finish_row (elapsed r))) secs)).
  exists (on_snd (fun r => finish_row (elapsed r)) x).
  split; [exact (get_game_shifts_rows _ _ H) |].
  split; [cbn [rows]; apply in_map; exact Hin |].
  destruct x as [i r]. cbn [snd] in Hs, He, Hp.
  destruct (finish_row_exact r Hp) as (E1 & E2 & E3);
    [unfold small_seconds; lia | unfold small_seconds; lia |].
  cbv zeta in E1, E2, E3.
  assert (Hle : startTime (finish_row (elapsed r))
                <= endTime (finish_row (elapsed r))).
  { rewrite E1, E2.
    destruct (Z.ltb_spec (1200 * (period r - 1) + endTime r)
                         (1200 * (period r - 1) + startTime r)); lia. }
  unfold reconciles, on_snd. cbn [fst snd].
  repeat split; assumption.
Qed.

Lemma reconciled_interval_witness :
  exists df y,
    get_game_shifts [raw 1 7 "19:30" 1 "00:15" "00:45";
                     raw 1 8 "18:30" 3 "" "01:00"] = Ok df
    /\ In y (rows df)
    /\ reconciles (0, mkShift 1 7 1170 1 15 45 10 "Team") y
    /\ startTime (snd y) <= endTime (snd y)
    /\ duration (snd y) = endTime (snd y) - startTime (snd y).
Proof.
  apply (reconciled_interval
           [raw 1 7 "19:30" 1 "00:15" "00:45"; raw 1 8 "18:30" 3 "" "01:00"]
           [(0, mkShift 1 7 1170 1 15 45 10 "Team");
            (1, mkShift 1 8 1110 3 1200 60 10 "Team")]
           (0, mkShift 1 7 1170 1 15 45 10 "Team")).
  - reflexivity.
  - left. reflexivity.
  - cbn [snd startTime]. lia.
  - cbn [snd endTime]. lia.
  - unfold small_period. cbn [snd period]. lia.
Defined.

(** ** The end of regulation *)

Lemma on_row_Ok {A B : Type} (f : A -> result B) (x : Z * A) (y : Z * B) :
  on_row f x = Ok y -> fst y = fst x /\ f (snd x) = Ok (snd y).
Proof.
  unfold on_row. intros H. bind_inv H. injection H as <-. simpl.
  split; [reflexivity | exact Hx].
Qed.

Lemma mapM_on_row_In {A B : Type} (f : A -> result B)
      (l : list (Z * A)) (l' : list (Z * B)) (i : Z) (a : A) :
  mapM (on_row f) l = Ok l' -> In (i, a) l ->
  exists b, f a = Ok b /\ In (i, b) l'.
Proof.
  intros H Hin. destruct (mapM_In _ _ _ H _ Hin) as [[j b] [Hb Hin']].
  apply on_row_Ok in Hb. simpl in Hb. destruct Hb as [-> Hb].
  exists b. split; assumption.
Qed.

(** A row without end time, in period 3, that starts in minute 18 or later
    leaves the string stage with the end time 20:00, which is 1200 seconds. *)
Lemma end_of_regulation_seconds (df : list (Z * ShiftRow string))
      (secs : list (Z * Shift)) (i : Z) (r : ShiftRow string) (m : Z) :
  local_seconds df = Ok secs ->
  In (i, r) df ->
  endTime r = "" -> period r = 3 ->
  Py.int (Py.slice 0 2 (startTime r)) = Ok m -> 18 <= m ->
  exists s d,
    to_seconds (startTime r) = Ok s
    /\ In (i, mkShift (gameId r) (playerId r) s 3 1200 d (teamId r) (teamName r))
          secs.
Proof.
  intros H Hin He Hp Hm Hm18. unfold local_seconds in H.
  bind_inv H. bind_inv H. bind_inv H.
  (* lines 59-63 *)
  destruct (mapM_on_row_In _ _ _ _ _ Hx Hin) as [r1 [E1 In1]].
  unfold end_of_regulation, final_two_minutes in E1. rewrite Hm in E1.
  unfold missing_end_time, final_period in E1. rewrite He, Hp in E1.
  simpl in E1. apply Z.leb_le in Hm18. rewrite Hm18 in E1. injection E1 as <-.
  (* lines 69-71: the start time is there *)
  destruct (mapM_on_row_In _ _ _ _ _ Hx0 In1) as [r2 [E2 In2]].
  unfold backfill_start, missing_start_time in E2. simpl in E2.
  destruct (startTime r) as [| c t] eqn:Es; [discriminate Hm |].
  simpl in E2. injection E2 as <-.
  (* lines 74-76: so is the end time *)
  destruct (mapM_on_row_In _ _ _ _ _ Hx1 In2) as [r3 [E3 In3]].
  unfold backfill_end, missing_end_time in E3. simpl in E3. injection E3 as <-.
  (* lines 79-84 *)
  destruct (mapM_on_row_In _ _ _ _ _ H In3) as [r4 [E4 In4]].
  unfold convert_row in E4.
  bind_inv E4. bind_inv E4. bind_inv E4. injection E4 as <-.
  vm_compute in Hx3. injection Hx3 as <-.
  simpl in Hx2, In4. rewrite Es in Hx2. rewrite Hp in In4.
  exists x2, x4. split; assumption.
Qed.

(** A row without end time that is not a final shift of regulation leaves
    the string stage with the end time start plus duration, minutes and
    seconds added separately. *)
Lemma backfill_end_local_seconds (df : list (Z * ShiftRow string))
      (secs : list (Z * Shift)) (i : Z) (r : ShiftRow string)
      (sm dm ss ds : Z) :
  local_seconds df = Ok secs ->
  In (i, r) df ->
  endTime r = "" ->
  Py.int (Py.slice 0 2 (startTime r)) = Ok sm ->
  Py.int (Py.slice 0 2 (duration r)) = Ok dm ->
  Py.int (Py.slice_from 3 (startTime r)) = Ok ss ->
  Py.int (Py.slice_from 3 (duration r)) = Ok ds ->
  (period r =? 3) && (18 <=? sm) = false ->
  exists s d,
    to_seconds (startTime r) = Ok s
    /\ In (i, mkShift (gameId r) (playerId r) s (period r)
                     ((sm * 60 + ss) + (dm * 60 + ds)) d
                     (teamId r) (teamName r)) secs.
Proof.
  intros H Hin He Hsm Hdm Hss Hds Hnot. unfold local_seconds in H.
  bind_inv H. bind_inv H. bind_inv H.
  destruct (mapM_on_row_In _ _ _ _ _ Hx Hin) as [r1 [E1 In1]].
  unfold end_of_regulation, final_two_minutes in E1. rewrite Hsm in E1.
  unfold missing_end_time, final_period in E1. rewrite He in E1.
  simpl in E1. rewrite Hnot in E1. injection E1 as <-.
  destruct (mapM_on_row_In _ _ _ _ _ Hx0 In1) as [r2 [E2 In2]].
  unfold backfill_start, missing_start_time in E2.
  destruct (startTime r) as [| c t] eqn:Es; [discriminate Hsm |].
  simpl in E2. injection E2 as <-.
  destruct (mapM_on_row_In _ _ _ _ _ Hx1 In2) as [r3 [E3 In3]].
  destruct (backfill_end_seconds r sm dm ss ds He) as [Eb Et];
    try assumption; [rewrite Es; exact Hsm | rewrite Es; exact Hss |].
  rewrite Eb in E3. injection E3 as <-.
  destruct (mapM_on_row_In _ _ _ _ _ H In3) as [r4 [E4 In4]].
  unfold convert_row in E4.
  bind_inv E4. bind_inv E4. bind_inv E4. injection E4 as <-.
  cbn [startTime endTime set_endTime] in Hx2, Hx3.
  cbn [gameId playerId period teamId teamName set_endTime] in In4.
  assert (E : Ok x3 = Ok (sm * 60 + ss + (dm * 60 + ds)))
    by (rewrite <- Hx3; exact Et).
  injection E as ->.
  rewrite Es in Hx2. exists x2, x4. split; assumption.
Qed.

(** C5, as stated, fails on its example: with the shift in period 3, the
    start is 2 * 1200 + 1110 = 3510 and the end 2 * 1200 + 1200 = 3600, where
    the claim has 2310 and 2400. *)
Lemma end_of_regulation_example_not_2400 :
  get_game_shifts [raw 1 7 "18:30" 3 "" "01:00"]
  = Ok (mkFrame shift_columns [(0, mkShift 1 7 3510 3 3600 90 10 "Team")])
  /\ get_game_shifts [raw 1 7 "18:30" 3 "" "01:00"]
     <> Ok (mkFrame shift_columns [(0, mkShift 1 7 2310 3 2400 90 10 "Team")]).
Proof.
  split; [reflexivity | intros H; discriminate H].
Qed.

(** C5, amended: a record without end time, in period 3, whose start time
    has a minute of 18 or more and lies within the period (between 0 and 1200
    seconds, 20:00 included), gets the period boundary 20:00 as its end time:
    the reconciled shift starts at 2400 plus its period-local start, ends at
    3600 and lasts the seconds between the two; the record with start time
    18:30 and duration 01:00 starts at 3510, ends at 3600 and lasts 90
    seconds. *)
Theorem end_of_regulation_boundary :
  (forall (game_shifts : list RawShift) (df : DataFrame Shift)
          (i : Z) (r : ShiftRow string) (m : Z),
      get_game_shifts game_shifts = Ok df ->
      In (i, r) (dropna (range_index 0 game_shifts)) ->
      endTime r = "" -> period r = 3 ->
      Py.int (Py.slice 0 2 (startTime r)) = Ok m -> 18 <= m ->
      exists s,
        to_seconds (startTime r) = Ok s
        /\ (0 <= s <= 1200 ->
            exists r',
              In (i, r') (rows df)
              /\ startTime r' = 2400 + s
              /\ endTime r' = 3600
              /\ duration r' = 1200 - s))
  /\ get_game_shifts [raw 1 7 "18:30" 3 "" "01:00"]
     = Ok (mkFrame shift_columns [(0, mkShift 1 7 3510 3 3600 90 10 "Team")]).
Proof.
  split; [| reflexivity].
  intros game_shifts df i r m H Hin He Hp Hm Hm18.
  destruct (local_seconds (dropna (range_index 0 game_shifts)))
    as [secs | e] eqn:Hs.
  - rewrite (get_game_shifts_rows _ _ Hs) in H. injection H as <-.
    destruct (end_of_regulation_seconds _ _ _ _ _ Hs Hin He Hp Hm Hm18)
      as [s [d [Hsec Hin']]].
    exists s. split; [exact Hsec |]. intros Hbound.
    eexists. split.
    + cbn [rows]. apply in_map_iff. eexists. split; [| exact Hin']. reflexivity.
    + cbn [snd].
      match goal with
      | |- context [finish_row (elapsed ?x)] =>
          destruct (finish_row_exact x) as (E1 & E2 & E3)
      end;
        try (unfold small_period, small_seconds;
             cbn [startTime endTime period]; lia).
      cbv zeta in E1, E2, E3.
      cbn [startTime endTime period] in E1, E2.
      cbn [snd]. rewrite E3, E2, E1.
      destruct (Z.ltb_spec (1200 * (3 - 1) + 1200) (1200 * (3 - 1) + s)); lia.
  - exfalso. unfold get_game_shifts in H.
    destruct (range_index 0 game_shifts) as [| x l]; [contradiction Hin |].
    destruct (dropna (x :: l)) as [| y l']; [contradiction Hin |].
    rewrite Hs in H. discriminate H.
Qed.

Lemma end_of_regulation_boundary_witness :
  exists r',
    In (0, r') [(0, mkShift 1 7 3510 3 3600 90 10 "Team")]
    /\ startTime r' = 2400 + 1110
    /\ endTime r' = 3600
    /\ duration r' = 1200 - 1110.
Proof.
  destruct (proj1 end_of_regulation_boundary
              [raw 1 7 "18:30" 3 "" "01:00"]
              (mkFrame shift_columns
                 [(0, mkShift 1 7 3510 3 3600 90 10 "Team")])
              0 (mkShift 1 7 "18:30" 3 "" "01:00" 10 "Team") 18)
    as [s [Hs Hrow]].
  - reflexivity.
  - left. reflexivity.
  - reflexivity.
  - reflexivity.
  - reflexivity.
  - lia.
  - vm_compute in Hs. injection Hs as <-. apply Hrow. lia.
Defined.

(** * Further properties of the two functions *)

(** ** The rows of the reconciled table *)

Lemma kept_refl {A : Type} (x : Z * ShiftRow A) : kept x x.
Proof. unfold kept. repeat split. Qed.

Lemma kept_trans {A B C : Type} (x : Z * ShiftRow A) (y : Z * ShiftRow B)
      (z : Z * ShiftRow C) :
  kept x y -> kept y z -> kept x z.
Proof. unfold kept. intuition congruence. Qed.

Lemma mapM_Forall2 {A B : Type} (f : A -> result B) (l : list A) (l' : list B) :
  mapM f l = Ok l' -> Forall2 (fun a b => f a = Ok b) l l'.
Proof.
  revert l'. induction l as [| a l IH]; simpl; intros l' H.
  - injection H as <-. constructor.
  - bind_names H b Hb. bind_names H bs Hbs. injection H as <-.
    constructor; [exact Hb | exact (IH _ Hbs)].
Qed.

Lemma Forall2_impl {A B : Type} (R S : A -> B -> Prop) (l : list A)
      (l' : list B) :
  (forall a b, In a l -> R a b -> S a b) -> Forall2 R l l' -> Forall2 S l l'.
Proof.
  intros HRS H. induction H as [| a b l l' Hab _ IH]; constructor.
  - apply HRS; [left; reflexivity | exact Hab].
  - apply IH. intros a' b' Ha'. apply HRS. right. exact Ha'.
Qed.

Lemma Forall2_compose {A B C : Type} (R : A -> B -> Prop) (S : B -> C -> Prop)
      (T : A -> C -> Prop) (l1 : list A) (l2 : list B) (l3 : list C) :
  (forall a b c, R a b -> S b c -> T a c) ->
  Forall2 R l1 l2 -> Forall2 S l2 l3 -> Forall2 T l1 l3.
Proof.
  intros HT H12. revert l3. induction H12 as [| a b l1 l2 Hab _ IH];
    intros l3 H23; inversion H23; subst; constructor; eauto.
Qed.

(** A step on the time columns keeps the row. *)
Lemma stage_kept {A B : Type} (f : ShiftRow A -> result (ShiftRow B))
      (l : list (Z * ShiftRow A)) (l' : list (Z * ShiftRow B)) :
  (forall r r', f r = Ok r' -> kept (0, r) (0, r')) ->
  mapM (on_row f) l = Ok l' -> Forall2 kept l l'.
Proof.
  intros Hf H. apply mapM_Forall2 in H. revert H. apply Forall2_impl.
  intros [i r] [j r'] _ E. apply on_row_Ok in E. simpl in E.
  destruct E as [-> E]. specialize (Hf _ _ E). unfold kept in *. simpl in *.
  intuition.
Qed.

Lemma end_of_regulation_kept (r r' : ShiftRow string) :
  end_of_regulation r = Ok r' -> kept (0, r) (0, r').
Proof.
  unfold end_of_regulation. intros H. bind_names H f2 Hf2. injection H as <-.
  destruct (missing_end_time r && final_period r && f2);
    unfold kept; repeat split.
Qed.

Lemma backfill_start_kept (r r' : ShiftRow string) :
  backfill_start r = Ok r' -> kept (0, r) (0, r').
Proof.
  unfold backfill_start. destruct (missing_start_time r); intros H.
  - bind_names H em Hem. bind_names H dm Hdm. bind_names H es Hes.
    bind_names H ds Hds. injection H as <-. unfold kept. repeat split.
  - injection H as <-. apply kept_refl.
Qed.

Lemma backfill_end_kept (r r' : ShiftRow string) :
  backfill_end r = Ok r' -> kept (0, r) (0, r').
Proof.
  unfold backfill_end. destruct (missing_end_time r); intros H.
  - bind_names H sm Hsm. bind_names H dm Hdm. bind_names H ss Hss.
    bind_names H ds Hds. injection H as <-. unfold kept. repeat split.
  - injection H as <-. apply kept_refl.
Qed.

Lemma convert_row_kept (r : ShiftRow string) (r' : Shift) :
  convert_row r = Ok r' -> kept (0, r) (0, r').
Proof.
  unfold convert_row. intros H. bind_names H s Hs. bind_names H e He.
  bind_names H d Hd. injection H as <-. unfold kept. repeat split.
Qed.

Lemma local_seconds_kept (df : list (Z * ShiftRow string))
      (secs : list (Z * Shift)) :
  local_seconds df = Ok secs -> Forall2 kept df secs.
Proof.
  unfold local_seconds. intros H.
  bind_names H df1 H1. bind_names H df2 H2. bind_names H df3 H3.
  apply (stage_kept _ _ _ end_of_regulation_kept) in H1.
  apply (stage_kept _ _ _ backfill_start_kept) in H2.
  apply (stage_kept _ _ _ backfill_end_kept) in H3.
  apply (stage_kept _ _ _ convert_row_kept) in H.
  pose proof (fun A B C => @kept_trans A B C) as T.
  eapply Forall2_compose; [apply T | | exact H].
  eapply Forall2_compose; [apply T | | exact H3].
  eapply Forall2_compose; [apply T | exact H1 | exact H2].
Qed.

Lemma get_game_shifts_inv (game_shifts : list RawShift) (df : DataFrame Shift) :
  get_game_shifts game_shifts = Ok df ->
  exists secs,
    local_seconds (dropna (range_index 0 game_shifts)) = Ok secs
    /\ df = mkFrame shift_columns
              (map (on_snd (fun r => finish_row (elapsed r))) secs).
Proof.
  intros H.
  destruct (local_seconds (dropna (range_index 0 game_shifts)))
    as [secs | e] eqn:Hs.
  - exists secs. split; [reflexivity |].
    rewrite (get_game_shifts_rows _ _ Hs) in H. injection H as <-. reflexivity.
  - exfalso. unfold get_game_shifts in H.
    destruct (range_index 0 game_shifts) as [| x l]; [discriminate Hs |].
    destruct (dropna (x :: l)) as [| y l']; [discriminate Hs |].
    rewrite Hs in H. discriminate H.
Qed.

Lemma reconciled_rows_kept_aux (game_shifts : list RawShift)
      (df : DataFrame Shift) :
  get_game_shifts game_shifts = Ok df ->
  columns df = shift_columns
  /\ Forall2 kept (dropna (range_index 0 game_shifts)) (rows df).
Proof.
  intros H. destruct (get_game_shifts_inv _ _ H) as [secs [Hs ->]]. simpl.
  split; [reflexivity |].
  apply (Forall2_compose (@kept string Z) (@kept Z Z) (@kept string Z)
           _ secs _).
  - intros a b c. apply kept_trans.
  - exact (local_seconds_kept _ _ Hs).
  - apply Forall2_map_r. intros [i r] _. unfold kept, on_snd. repeat split.
Qed.

(** X1: The reconciler neither loses nor adds nor reorders a shift: its table
    has one row for each provider record without null cell, in the
    provider's order, under the same label, with the same game, player,
    period and team. *)
Theorem reconciled_rows_kept (game_shifts : list RawShift)
        (df : DataFrame Shift) :
  get_game_shifts game_shifts = Ok df ->
  columns df = shift_columns
  /\ Forall2 kept (dropna (range_index 0 game_shifts)) (rows df).
Proof. exact (reconciled_rows_kept_aux game_shifts df). Qed.

Lemma reconciled_rows_kept_witness :
  columns (mkFrame shift_columns
             [(1, mkShift 1 7 350 1 395 45 10 "Team")]) = shift_columns
  /\ Forall2 kept
       (dropna (range_index 0 [goal_event; raw 1 7 "05:50" 1 "" "00:45"]))
       (rows (mkFrame shift_columns [(1, mkShift 1 7 350 1 395 45 10 "Team")])).
Proof.
  apply (reconciled_rows_kept [goal_event; raw 1 7 "05:50" 1 "" "00:45"]).
  reflexivity.
Defined.

(** ** The labels of the reconciled table *)

Lemma dropna_range_index_In (l : list RawShift) (k i : Z) (s : ShiftRow string) :
  In (i, s) (dropna (range_index k l)) ->
  k <= i
  /\ exists r, nth_error l (Z.to_nat (i - k)) = Some r /\ complete_row r = Some s.
Proof.
  revert k. induction l as [| r l IH]; simpl; intros k H; [contradiction |].
  assert (Htail : In (i, s) (dropna (range_index (k + 1) l)) ->
                  k <= i
                  /\ exists r0, nth_error (r :: l) (Z.to_nat (i - k)) = Some r0
                                /\ complete_row r0 = Some s).
  { intros Hin. destruct (IH _ Hin) as [Hle [r0 [Hn Hc]]].
    split; [lia |]. exists r0. split; [| exact Hc].
    replace (Z.to_nat (i - k)) with (S (Z.to_nat (i - (k + 1)))) by lia.
    exact Hn. }
  destruct (complete_row r) as [s0 |] eqn:E; [| exact (Htail H)].
  destruct H as [H | H]; [| exact (Htail H)].
  injection H as -> ->. split; [lia |]. exists r.
  rewrite Z.sub_diag. split; [reflexivity | exact E].
Qed.

Lemma dropna_range_index_NoDup (l : list RawShift) (k : Z) :
  NoDup (index (dropna (range_index k l))).
Proof.
  revert k. induction l as [| r l IH]; simpl; intros k; [constructor |].
  destruct (complete_row r) as [s0 |]; [| apply IH].
  simpl. constructor; [| apply IH].
  intros Hin. unfold index in Hin. apply in_map_iff in Hin.
  destruct Hin as [[i s] [Ei Hin]]. simpl in Ei. subst i.
  apply dropna_range_index_In in Hin. lia.
Qed.

Lemma Forall2_kept_index {A B : Type} (l : list (Z * ShiftRow A))
      (l' : list (Z * ShiftRow B)) :
  Forall2 kept l l' -> index l' = index l.
Proof.
  unfold index. induction 1 as [| x y l l' Hxy _ IH]; simpl; [reflexivity |].
  destruct Hxy as [-> _]. rewrite IH. reflexivity.
Qed.

Lemma Forall2_In_r {A B : Type} (R : A -> B -> Prop) (l : list A) (l' : list B)
      (b : B) :
  Forall2 R l l' -> In b l' -> exists a, In a l /\ R a b.
Proof.
  induction 1 as [| x y l l' Hxy _ IH]; simpl; [intros [] |].
  intros [<- | Hb].
  - exists x. split; [left; reflexivity | exact Hxy].
  - destruct (IH Hb) as [a [Ha HR]]. exists a. split; [right |]; assumption.
Qed.

(** X2: The labels of the reconciled table are all different, and the label of
    a row is the position, counted from 0, of its record in the provider's
    list. *)
Theorem reconciled_labels (game_shifts : list RawShift) (df : DataFrame Shift) :
  get_game_shifts game_shifts = Ok df ->
  NoDup (index (rows df))
  /\ forall i y, In (i, y) (rows df) ->
       0 <= i
       /\ exists r s, nth_error game_shifts (Z.to_nat i) = Some r
                      /\ complete_row r = Some s /\ kept (i, s) (i, y).
Proof.
  intros H. destruct (reconciled_rows_kept_aux game_shifts df H) as [_ Hk].
  split.
  - rewrite (Forall2_kept_index _ _ Hk). apply dropna_range_index_NoDup.
  - intros i y Hy.
    destruct (Forall2_In_r _ _ _ _ Hk Hy) as [[j s] [Hin Hkept]].
    assert (j = i) by (destruct Hkept as [E _]; simpl in E; congruence).
    subst j. destruct (dropna_range_index_In _ _ _ _ Hin) as [Hle [r [Hn Hc]]].
    rewrite Z.sub_0_r in Hn. split; [exact Hle |].
    exists r, s. repeat split; try assumption; apply Hkept.
Qed.

Lemma reconciled_labels_witness :
  NoDup [1]
  /\ forall i y, In (i, y) [(1, mkShift 1 7 350 1 395 45 10 "Team")] ->
       0 <= i
       /\ exists r s,
            nth_error [goal_event; raw 1 7 "05:50" 1 "" "00:45"] (Z.to_nat i)
            = Some r
            /\ complete_row r = Some s /\ kept (i, s) (i, y).
Proof.
  apply (reconciled_labels
           [goal_event; raw 1 7 "05:50" 1 "" "00:45"]
           (mkFrame shift_columns [(1, mkShift 1 7 350 1 395 45 10 "Team")])).
  reflexivity.
Defined.

(** ** Records with all times given *)

Lemma below_100 (P : Z -> bool) :
  forallb P (map Z.of_nat (seq 0 100)) = true ->
  forall n, 0 <= n <= 99 -> P n = true.
Proof.
  intros H n Hn. rewrite forallb_forall in H. apply H.
  apply in_map_iff. exists (Z.to_nat n). split; [lia |].
  apply in_seq. lia.
Qed.

Lemma two_digits_int (n : Z) :
  0 <= n <= 99 ->
  Py.int (two_digits n) = Ok n /\ no_colon (two_digits n) = true.
Proof.
  intros Hn. pose proof (below_100 reads_back eq_refl n Hn) as H.
  unfold reads_back in H. destruct (Py.int (two_digits n)) as [z | e];
    [| discriminate H].
  apply andb_true_iff in H. destruct H as [Hz Hc]. apply Z.eqb_eq in Hz.
  subst z. split; [reflexivity | exact Hc].
Qed.

Lemma to_seconds_mmss (m s : Z) :
  0 <= m <= 99 -> 0 <= s <= 99 -> to_seconds (mmss m s) = Ok (m * 60 + s).
Proof.
  intros Hm Hs. destruct (two_digits_int m Hm) as [Im Cm].
  destruct (two_digits_int s Hs) as [Is Cs].
  unfold to_seconds, mmss.
  change (two_digits m ++ ":" ++ two_digits s)
    with (two_digits m ++ String ":" (two_digits s)).
  rewrite (split_colon _ _ Cm Cs), Im, Is. reflexivity.
Qed.

Lemma slice_mmss (m s : Z) : Py.slice 0 2 (mmss m s) = two_digits m.
Proof. reflexivity. Qed.

Lemma mmss_not_empty (m s : Z) : String.eqb (mmss m s) "" = false.
Proof. reflexivity. Qed.

(** A record with all times given passes the string stage unchanged and
    is converted to seconds. *)
Lemma timed_row (r : ShiftRow string) (ms ss me se md sd : Z) :
  timed r ms ss me se md sd ->
  end_of_regulation r = Ok r /\ backfill_start r = Ok r
  /\ backfill_end r = Ok r
  /\ convert_row r
     = Ok (mkShift (gameId r) (playerId r) (ms * 60 + ss) (period r)
             (me * 60 + se) (md * 60 + sd) (teamId r) (teamName r)).
Proof.
  intros (Es & Ee & Ed & Hms & Hss & Hme & Hse & Hmd & Hsd).
  repeat split.
  - unfold end_of_regulation, final_two_minutes, missing_end_time.
    rewrite Es, Ee, slice_mmss, mmss_not_empty.
    destruct (two_digits_int ms Hms) as [-> _]. reflexivity.
  - unfold backfill_start, missing_start_time. rewrite Es, mmss_not_empty.
    reflexivity.
  - unfold backfill_end, missing_end_time. rewrite Ee, mmss_not_empty.
    reflexivity.
  - unfold convert_row. rewrite Es, Ee, Ed.
    rewrite !to_seconds_mmss by assumption. reflexivity.
Qed.

Lemma mapM_total {A B : Type} (f : A -> result B) (g : A -> B) (l : list A) :
  (forall a, In a l -> f a = Ok (g a)) -> mapM f l = Ok (map g l).
Proof.
  induction l as [| a l IH]; simpl; intros H; [reflexivity |].
  rewrite (H a (or_introl eq_refl)). simpl.
  rewrite IH by (intros b Hb; apply H; right; exact Hb). reflexivity.
Qed.

Lemma mapM_same {A : Type} (f : A -> result A) (l : list A) :
  (forall a, In a l -> f a = Ok a) -> mapM f l = Ok l.
Proof.
  intros H. rewrite (mapM_total f (fun a => a) l H), map_id. reflexivity.
Qed.

Lemma timed_local_seconds (df : list (Z * ShiftRow string)) :
  (forall x, In x df -> exists ms ss me se md sd, timed (snd x) ms ss me se md sd) ->
  exists secs,
    local_seconds df = Ok secs
    /\ Forall2 (fun x y =>
                  exists ms ss me se md sd,
                    timed (snd x) ms ss me se md sd
                    /\ y = (fst x, seconds_of (snd x) (ms * 60 + ss)
                                     (me * 60 + se) (md * 60 + sd)))
               df secs.
Proof.
  intros H. unfold local_seconds.
  assert (Hrow : forall x, In x df ->
            on_row end_of_regulation x = Ok x
            /\ on_row backfill_start x = Ok x
            /\ on_row backfill_end x = Ok x).
  { intros [i r] Hx. destruct (H _ Hx) as (ms & ss & me & se & md & sd & Ht).
    cbn [snd] in Ht.
    destruct (timed_row _ _ _ _ _ _ _ Ht) as (E1 & E2 & E3 & _).
    unfold on_row. cbn [fst snd]. rewrite E1, E2, E3. repeat split. }
  rewrite (mapM_same _ df) by (intros x Hx; apply (Hrow x Hx)). simpl.
  rewrite (mapM_same _ df) by (intros x Hx; apply (Hrow x Hx)). simpl.
  rewrite (mapM_same _ df) by (intros x Hx; apply (Hrow x Hx)). simpl.
  clear Hrow. induction df as [| [i r] df IH]; simpl.
  - exists []. split; [reflexivity | constructor].
  - destruct (H (i, r) (or_introl eq_refl))
      as (ms & ss & me & se & md & sd & Ht).
    cbn [snd] in Ht.
    destruct (timed_row _ _ _ _ _ _ _ Ht) as (_ & _ & _ & E4).
    destruct IH as [secs [Hsecs HF]];
      [intros x Hx; apply H; right; exact Hx |].
    unfold on_row at 1. cbn [fst snd]. rewrite E4. cbn [bind].
    rewrite Hsecs. cbn [bind].
    eexists. split; [reflexivity |]. constructor; [| exact HF].
    exists ms, ss, me, se, md, sd. split; [exact Ht | reflexivity].
Qed.

Lemma finish_row_reconciled (i : Z) (r : ShiftRow string) (s e d : Z) :
  small_period (period r) -> small_seconds s -> small_seconds e ->
  reconciled s e (i, r) (i, finish_row (elapsed (seconds_of r s e d))).
Proof.
  intros Hp Hs He.
  destruct (finish_row_exact (seconds_of r s e d) Hp Hs He) as (E1 & E2 & E3).
  cbv zeta in E1, E2, E3.
  unfold reconciled, kept. cbn [fst snd]. repeat split; assumption.
Qed.

(** X3: When every record without null cell gives its three times as mm:ss
    and has a small period, the reconciler returns; a shift that starts at
    ms:ss and ends at me:se of its period starts at
    1200 (period - 1) + 60 ms + ss seconds of the game and ends at
    1200 (period - 1) + 60 me + se, or 1200 seconds later when that is before
    the start. *)
Theorem timed_records_reconciled (game_shifts : list RawShift) :
  (forall x, In x (dropna (range_index 0 game_shifts)) ->
     small_period (period (snd x))
     /\ exists ms ss me se md sd, timed (snd x) ms ss me se md sd) ->
  exists df,
    get_game_shifts game_shifts = Ok df
    /\ Forall2 (fun x y =>
                  exists ms ss me se md sd,
                    timed (snd x) ms ss me se md sd
                    /\ reconciled (ms * 60 + ss) (me * 60 + se) x y)
               (dropna (range_index 0 game_shifts)) (rows df).
Proof.
  intros H.
  destruct (timed_local_seconds _ (fun x Hx => proj2 (H x Hx)))
    as [secs [Hs HF]].
  eexists. split; [exact (get_game_shifts_rows _ _ Hs) |]. cbn [rows].
  assert (Hp : forall x, In x (dropna (range_index 0 game_shifts)) ->
                         small_period (period (snd x)))
    by (intros x Hx; exact (proj1 (H x Hx))).
  clear Hs H. revert HF Hp. generalize (dropna (range_index 0 game_shifts)).
  intros l HF. induction HF as [| x y l secs Hxy _ IH]; intros Hp; simpl;
    constructor.
  - destruct Hxy as (ms & ss & me & se & md & sd & Ht & ->).
    exists ms, ss, me, se, md, sd. split; [exact Ht |].
    pose proof (Hp x (or_introl eq_refl)) as Hpx.
    destruct x as [i r]. cbn [fst snd] in *.
    unfold timed in Ht. unfold on_snd. cbn [fst snd].
    apply finish_row_reconciled;
      [exact Hpx | unfold small_seconds; lia | unfold small_seconds; lia].
  - apply IH. intros z Hz. apply Hp. right. exact Hz.
Qed.

Lemma timed_records_reconciled_witness :
  exists df,
    get_game_shifts [raw 1 7 "19:30" 2 "00:15" "00:45"; goal_event] = Ok df
    /\ Forall2 (fun x y =>
                  exists ms ss me se md sd,
                    timed (snd x) ms ss me se md sd
                    /\ reconciled (ms * 60 + ss) (me * 60 + se) x y)
               (dropna (range_index 0
                          [raw 1 7 "19:30" 2 "00:15" "00:45"; goal_event]))
               (rows df).
Proof.
  apply (timed_records_reconciled
           [raw 1 7 "19:30" 2 "00:15" "00:45"; goal_event]).
  intros x [<- | []]. split.
  - unfold small_period. cbn [snd period]. lia.
  - exists 19, 30, 0, 15, 0, 45.
    unfold timed. simpl. repeat split; lia.
Defined.

(** ** A record without end time, through the whole reconciler *)

(** X4: A record without end time that is not a final shift of regulation ends
    at its start plus its duration: the minutes and the seconds that lines
    74-76 add separately and print are read back by lines 79-84 as the sum
    in seconds.  The period and the seconds are small, so that lines 87-98
    do not wrap around. *)
Theorem missing_end_is_start_plus_duration (game_shifts : list RawShift)
        (df : DataFrame Shift) (i : Z) (r : ShiftRow string)
        (sm dm ss ds s : Z) :
  get_game_shifts game_shifts = Ok df ->
  In (i, r) (dropna (range_index 0 game_shifts)) ->
  endTime r = "" ->
  Py.int (Py.slice 0 2 (startTime r)) = Ok sm ->
  Py.int (Py.slice 0 2 (duration r)) = Ok dm ->
  Py.int (Py.slice_from 3 (startTime r)) = Ok ss ->
  Py.int (Py.slice_from 3 (duration r)) = Ok ds ->
  (period r =? 3) && (18 <=? sm) = false ->
  to_seconds (startTime r) = Ok s ->
  small_period (period r) ->
  small_seconds s ->
  small_seconds ((sm * 60 + ss) + (dm * 60 + ds)) ->
  exists y,
    In (i, y) (rows df)
    /\ reconciled s ((sm * 60 + ss) + (dm * 60 + ds)) (i, r) (i, y).
Proof.
  intros H Hin He Hsm Hdm Hss Hds Hnot Hstart Hp Hs0 He0.
  destruct (get_game_shifts_inv _ _ H) as [secs [Hs ->]].
  destruct (backfill_end_local_seconds _ _ _ _ _ _ _ _ Hs Hin He Hsm Hdm Hss
              Hds Hnot) as [s' [d [Hsec Hrow]]].
  rewrite Hstart in Hsec. injection Hsec as <-.
  eexists. split.
  - cbn [rows]. apply in_map_iff. eexists. split; [| exact Hrow]. reflexivity.
  - cbn [snd]. apply (finish_row_reconciled i r s _ d); assumption.
Qed.

Lemma missing_end_is_start_plus_duration_witness :
  exists y,
    In (0, y) [(0, mkShift 1 7 350 1 395 45 10 "Team")]
    /\ reconciled 350 ((5 * 60 + 50) + (0 * 60 + 45))
         (0, mkShift 1 7 "05:50" 1 "" "00:45" 10 "Team") (0, y).
Proof.
  apply (missing_end_is_start_plus_duration
           [raw 1 7 "05:50" 1 "" "00:45"]
           (mkFrame shift_columns [(0, mkShift 1 7 350 1 395 45 10 "Team")])
           0 (mkShift 1 7 "05:50" 1 "" "00:45" 10 "Team") 5 0 50 45 350);
    try reflexivity.
  - left. reflexivity.
  - unfold small_period. cbn [period]. lia.
  - unfold small_seconds. lia.
  - unfold small_seconds. lia.
Defined.

(** X5: A record whose start time is the empty string stops the reconciler for
    the whole game: line 59 reads the minute of every start time, and [int]
    of the empty string raises ValueError before any time is filled in. *)
Theorem empty_start_time_raises (game_shifts : list RawShift)
        (i : Z) (r : ShiftRow string) :
  In (i, r) (dropna (range_index 0 game_shifts)) -> startTime r = "" ->
  get_game_shifts game_shifts = Raise ValueError.
Proof. exact (get_game_shifts_missing_start game_shifts i r). Qed.

Lemma empty_start_time_raises_witness :
  get_game_shifts [raw 1 8 "09:00" 1 "10:00" "01:00";
                   raw 1 7 "" 1 "10:00" "01:00"] = Raise ValueError.
Proof.
  apply (empty_start_time_raises
           [raw 1 8 "09:00" 1 "10:00" "01:00"; raw 1 7 "" 1 "10:00" "01:00"]
           1 (mkShift 1 7 "" 1 "10:00" "01:00" 10 "Team")).
  - right. left. reflexivity.
  - reflexivity.
Defined.

(** ** Where a record comes from *)

Lemma overlap_dict_entries (sh : Shift) (l : list (Z * Shift)) :
  forall d0 d, foldM (overlap_step sh) l d0 = Ok d ->
  forall k v, In (k, v) d ->
    In (k, v) d0
    \/ exists o, In o l /\ playerId (snd o) = k
                 /\ overlap_seconds (startTime sh) (endTime sh)
                      (startTime (snd o)) (endTime (snd o)) = Ok v.
Proof.
  induction l as [| o l IH]; simpl; intros d0 d H k v Hk.
  - injection H as <-. left. exact Hk.
  - bind_names H d1 Hd1. unfold overlap_step in Hd1. bind_names Hd1 n Hn.
    injection Hd1 as <-.
    destruct (IH _ _ H k v Hk) as [H1 | [o' [Ho' E]]].
    + destruct (dict_set_In _ _ _ _ _ H1) as [H2 | [-> ->]].
      * left. exact H2.
      * right. exists o. repeat split; [left; reflexivity | exact Hn].
    + right. exists o'. split; [right; exact Ho' | exact E].
Qed.

Lemma shift_step_sound (all_game_shifts : list (Z * Shift))
      (player_team : Z * Z) (checked : list Z)
      (acc acc' : dict WideRow) (sh : Z * Shift) :
  In sh (get_group all_game_shifts player_team) ->
  cells_sound all_game_shifts acc ->
  shift_step all_game_shifts (get_group all_game_shifts player_team)
             player_team checked acc sh = Ok acc' ->
  cells_sound all_game_shifts acc'.
Proof.
  intros Hsh Hacc H. unfold shift_step in H. bind_names H d Hd.
  injection H as <-. intros lbl s d' Hin.
  destruct (dict_set_In _ _ _ _ _ Hin) as [Hold | [-> Hnew]];
    [exact (Hacc _ _ _ Hold) |].
  injection Hnew as -> ->.
  unfold get_group in Hsh. apply filter_In in Hsh. destruct Hsh as [Hall Hkey].
  apply key_eqb_eq in Hkey. split; [destruct sh; exact Hall |].
  intros k v Hkv.
  destruct (overlap_dict_entries _ _ _ _ Hd k v Hkv) as [[] | [o [Ho [Ek Ev]]]].
  unfold shift_overlap in Ho. apply filter_In in Ho. destruct Ho as [Ho Hc].
  apply andb_true_iff in Hc. destruct Hc as [Hteam Htime].
  unfold other_players in Ho. apply filter_In in Ho. destruct Ho as [Ho _].
  unfold drop in Ho. apply filter_In in Ho. destruct Ho as [Ho _].
  destruct o as [j b]. exists j, b. simpl in *.
  unfold correct_team in Hteam. apply Z.eqb_eq in Hteam.
  repeat split; try assumption.
  rewrite Hteam, <- Hkey. reflexivity.
Qed.

Lemma engine_cells_sound (game_shifts_df : list (Z * Shift)) (g : Z)
      (st : dict WideRow * list Z) :
  foldM (player_step (select_game game_shifts_df g))
        (group_keys (select_game game_shifts_df g)) ([], []) = Ok st ->
  cells_sound (select_game game_shifts_df g) (fst st).
Proof.
  apply (foldM_invariant
           (fun s => cells_sound (select_game game_shifts_df g) (fst s))).
  - intros s k s' _ Hs H. unfold player_step in H. bind_names H acc Hacc.
    injection H as <-. simpl. revert Hacc.
    apply (foldM_invariant (cells_sound (select_game game_shifts_df g)));
      [| exact Hs].
    intros a x a' Hx Ha. apply shift_step_sound; assumption.
  - intros lbl sh d [].
Qed.

Lemma record_from_cell (game_shifts_df : list (Z * Shift)) (g : Z)
      (recs : list OverlapRecord) (r : OverlapRecord) :
  get_overlapping_shifts game_shifts_df g = Ok recs -> In r recs ->
  exists i a,
    In (i, a) (select_game game_shifts_df g)
    /\ overlap_gameId r = gameId a
    /\ overlap_playerId r = playerId a
    /\ cell_from (select_game game_shifts_df g) a (playerId2 r) (seconds r).
Proof.
  intros H Hr. unfold get_overlapping_shifts in H. bind_names H st Hst.
  pose proof (engine_cells_sound _ _ _ Hst) as Hsound.
  destruct (fst st) as [| w0 wide] eqn:E; [discriminate H |].
  injection H as <-. unfold melt in Hr.
  apply in_flat_map in Hr. destruct Hr as [c [_ Hr]].
  apply in_flat_map in Hr. destruct Hr as [[lbl [sh d]] [Hin Hr]].
  unfold melt_cell in Hr. simpl in Hr.
  destruct (dict_get c d) as [v |] eqn:G; [| contradiction].
  destruct Hr as [<- | []]. simpl.
  destruct (Hsound _ _ _ Hin) as [Hrow Hcells].
  exists lbl, sh. repeat split; [exact Hrow |].
  apply Hcells. exact (dict_get_In _ _ _ G).
Qed.

(** X6: A record is about two shifts of the game that was asked for: a shift
    of its player and a shift of its partner, both on the same team, the
    second passing the overlap test of lines 188-193 against the first;
    its seconds are what lines 204-220 compute for the two. *)
Theorem record_provenance (game_shifts_df : list (Z * Shift)) (g : Z)
        (recs : list OverlapRecord) (r : OverlapRecord) :
  get_overlapping_shifts game_shifts_df g = Ok recs -> In r recs ->
  overlap_gameId r = g
  /\ exists i a j b,
       In (i, a) game_shifts_df /\ In (j, b) game_shifts_df
       /\ gameId a = g /\ gameId b = g
       /\ playerId a = overlap_playerId r /\ playerId b = playerId2 r
       /\ teamId a = teamId b
       /\ correct_time a b = true
       /\ overlap_seconds (startTime a) (endTime a) (startTime b) (endTime b)
          = Ok (seconds r).
Proof.
  intros H Hr.
  destruct (record_from_cell _ _ _ _ H Hr)
    as (i & a & Ha & Eg & Ep & j & b & Hb & Ek & Et & Hc & Hv).
  unfold select_game in Ha, Hb. apply filter_In in Ha, Hb.
  destruct Ha as [Ha Hga], Hb as [Hb Hgb]. simpl in Hga, Hgb.
  apply Z.eqb_eq in Hga, Hgb. split; [congruence |].
  exists i, a, j, b. repeat split; try assumption; congruence.
Qed.

Lemma record_provenance_witness :
  overlap_gameId (mkOverlap 1 7 8 50) = 1
  /\ exists i a j b,
       In (i, a) two_games /\ In (j, b) two_games
       /\ gameId a = 1 /\ gameId b = 1
       /\ playerId a = overlap_playerId (mkOverlap 1 7 8 50)
       /\ playerId b = playerId2 (mkOverlap 1 7 8 50)
       /\ teamId a = teamId b
       /\ correct_time a b = true
       /\ overlap_seconds (startTime a) (endTime a) (startTime b) (endTime b)
          = Ok (seconds (mkOverlap 1 7 8 50)).
Proof.
  apply (record_provenance two_games 1 [mkOverlap 1 7 8 50]).
  - reflexivity.
  - left. reflexivity.
Defined.

Lemma overlap_seconds_bounds (a0 a1 b0 b1 v : Z) :
  overlap_seconds a0 a1 b0 b1 = Ok v ->
  0 <= v /\ v <= Z.max 0 (a1 - a0) /\ v <= Z.max 0 (b1 - b0).
Proof.
  range_cases; intros Hv; try discriminate Hv; injection Hv as <-; lia.
Qed.

(** X7: The seconds of a record are never negative and never more than the
    length of a shift of its player, nor of a shift of its partner. *)
Theorem seconds_bounded (game_shifts_df : list (Z * Shift)) (g : Z)
        (recs : list OverlapRecord) (r : OverlapRecord) :
  get_overlapping_shifts game_shifts_df g = Ok recs -> In r recs ->
  0 <= seconds r
  /\ exists i a j b,
       In (i, a) game_shifts_df /\ In (j, b) game_shifts_df
       /\ playerId a = overlap_playerId r /\ playerId b = playerId2 r
       /\ seconds r <= Z.max 0 (endTime a - startTime a)
       /\ seconds r <= Z.max 0 (endTime b - startTime b).
Proof.
  intros H Hr.
  destruct (record_from_cell _ _ _ _ H Hr)
    as (i & a & Ha & Eg & Ep & j & b & Hb & Ek & Et & Hc & Hv).
  destruct (overlap_seconds_bounds _ _ _ _ _ Hv) as (H0 & H1 & H2).
  unfold select_game in Ha, Hb. apply filter_In in Ha, Hb.
  split; [exact H0 |]. exists i, a, j, b.
  repeat split; try tauto; congruence.
Qed.

Lemma seconds_bounded_witness :
  0 <= seconds (mkOverlap 1 7 8 50)
  /\ exists i a j b,
       In (i, a) two_games /\ In (j, b) two_games
       /\ playerId a = overlap_playerId (mkOverlap 1 7 8 50)
       /\ playerId b = playerId2 (mkOverlap 1 7 8 50)
       /\ seconds (mkOverlap 1 7 8 50) <= Z.max 0 (endTime a - startTime a)
       /\ seconds (mkOverlap 1 7 8 50) <= Z.max 0 (endTime b - startTime b).
Proof.
  apply (seconds_bounded two_games 1 [mkOverlap 1 7 8 50]).
  - reflexivity.
  - left. reflexivity.
Defined.

(** ** When the engine returns *)

Lemma foldM_total {A S : Type} (f : S -> A -> result S) (l : list A) :
  (forall s a, In a l -> exists s', f s a = Ok s') ->
  forall s, exists s', foldM f l s = Ok s'.
Proof.
  induction l as [| a l IH]; simpl; intros H s.
  - exists s. reflexivity.
  - destruct (H s a (or_introl eq_refl)) as [s1 E]. rewrite E. simpl.
    apply IH. intros s0 b Hb. apply H. right. exact Hb.
Qed.

Lemma shift_step_total (all_game_shifts shifts : list (Z * Shift))
      (player_team : Z * Z) (checked : list Z) (acc : dict WideRow)
      (sh : Z * Shift) :
  startTime (snd sh) < endTime (snd sh) ->
  (forall o, In o all_game_shifts ->
     endTime (snd o) - startTime (snd o) <= Py.maxsize) ->
  exists acc', shift_step all_game_shifts shifts player_team checked acc sh
               = Ok acc'.
Proof.
  intros Hsh Hlen. unfold shift_step, overlap_dict_of.
  destruct (foldM_total (overlap_step (snd sh))
              (shift_overlap player_team (snd sh)
                 (other_players all_game_shifts shifts checked))) with (s := @nil (Z * Z))
    as [d Hd].
  - intros s o Ho. unfold overlap_step.
    rewrite overlap_seconds_nonempty; [eexists; reflexivity | exact Hsh |].
    apply Hlen. unfold shift_overlap, other_players, drop in Ho.
    apply filter_In in Ho. destruct Ho as [Ho _].
    apply filter_In in Ho. destruct Ho as [Ho _].
    apply filter_In in Ho. apply Ho.
  - rewrite Hd. eexists. reflexivity.
Qed.

Lemma player_steps_total (all_game_shifts : list (Z * Shift))
      (keys : list (Z * Z)) (st : dict WideRow * list Z) :
  (forall x, In x all_game_shifts ->
     startTime (snd x) < endTime (snd x)
     /\ endTime (snd x) - startTime (snd x) <= Py.maxsize) ->
  exists st', foldM (player_step all_game_shifts) keys st = Ok st'.
Proof.
  intros Hall. apply foldM_total. intros s k _. unfold player_step.
  destruct (foldM_total
              (shift_step all_game_shifts (get_group all_game_shifts k) k (snd s))
              (get_group all_game_shifts k)) with (s := fst s) as [acc Hacc].
  - intros a x Hx. apply shift_step_total.
    + apply Hall. unfold get_group in Hx. apply filter_In in Hx. apply Hx.
    + intros o Ho. apply Hall. exact Ho.
  - rewrite Hacc. eexists. reflexivity.
Qed.

(** The rows of the wide table: a row is never removed, and every shift
    that had its turn has one. *)
Lemma shift_steps_labels (all_game_shifts shifts : list (Z * Shift))
      (player_team : Z * Z) (checked : list Z) (l : list (Z * Shift)) :
  forall acc acc',
  foldM (shift_step all_game_shifts shifts player_team checked) l acc = Ok acc' ->
  (forall i, In i (map fst acc) -> In i (map fst acc'))
  /\ (forall x, In x l -> In (fst x) (map fst acc')).
Proof.
  induction l as [| sh l IH]; simpl; intros acc acc' H.
  - injection H as <-. split; [auto | intros x []].
  - bind_names H acc1 H1. unfold shift_step in H1. bind_names H1 d Hd.
    injection H1 as <-. destruct (IH _ _ H) as [Hmono Hin]. split.
    + intros i Hi. apply Hmono, dict_set_keys_mono. left. exact Hi.
    + intros x [<- | Hx]; [| exact (Hin _ Hx)].
      apply Hmono, dict_set_keys_mono. right. reflexivity.
Qed.

Lemma player_steps_labels (all_game_shifts : list (Z * Shift))
      (keys : list (Z * Z)) :
  forall st st',
  foldM (player_step all_game_shifts) keys st = Ok st' ->
  (forall i, In i (map fst (fst st)) -> In i (map fst (fst st')))
  /\ (forall k x, In k keys -> In x (get_group all_game_shifts k) ->
        In (fst x) (map fst (fst st'))).
Proof.
  induction keys as [| k keys IH]; simpl; intros st st' H.
  - injection H as <-. split; [auto | intros k x []].
  - bind_names H st1 H1. unfold player_step in H1. bind_names H1 acc Hacc.
    injection H1 as <-. destruct (IH _ _ H) as [Hmono Hin].
    destruct (shift_steps_labels _ _ _ _ _ _ _ Hacc) as [Hmono1 Hin1].
    simpl in Hmono. split.
    + intros i Hi. apply Hmono, Hmono1. exact Hi.
    + intros k' x [<- | Hk'] Hx; [| exact (Hin _ _ Hk' Hx)].
      apply Hmono, Hin1. exact Hx.
Qed.

(** X8: On a table whose shifts of the game all have a positive length, of
    at most [sys.maxsize] seconds, the engine fails in one case only: it
    raises ValueError when the table has no shift of the game it is asked
    for, and returns its records otherwise. *)
Theorem engine_returns (game_shifts_df : list (Z * Shift)) (g : Z) :
  (forall x, In x (select_game game_shifts_df g) ->
     startTime (snd x) < endTime (snd x)
     /\ endTime (snd x) - startTime (snd x) <= Py.maxsize) ->
  (select_game game_shifts_df g = []
   /\ get_overlapping_shifts game_shifts_df g = Raise ValueError)
  \/ (select_game game_shifts_df g <> []
      /\ exists recs, get_overlapping_shifts game_shifts_df g = Ok recs).
Proof.
  intros Hall. unfold get_overlapping_shifts.
  destruct (select_game game_shifts_df g) as [| x all] eqn:E.
  - left. split; reflexivity.
  - right. split; [discriminate |]. rewrite <- E in *.
    destruct (player_steps_total _ (group_keys (select_game game_shifts_df g))
                ([], []) Hall) as [st Hst].
    rewrite Hst. simpl.
    destruct (player_steps_labels _ _ _ _ Hst) as [_ Hin].
    assert (Hx : In x (select_game game_shifts_df g))
      by (rewrite E; left; reflexivity).
    assert (Hlab : In (fst x) (map fst (fst st))).
    { apply (Hin (shift_key x) x); [apply group_keys_In; exact Hx |].
      unfold get_group. apply filter_In. split; [exact Hx |].
      apply key_eqb_eq. reflexivity. }
    destruct (fst st) as [| w wide]; [contradiction Hlab |].
    eexists. reflexivity.
Qed.

Lemma engine_returns_witness :
  (select_game two_games 1 = []
   /\ get_overlapping_shifts two_games 1 = Raise ValueError)
  \/ (select_game two_games 1 <> []
      /\ exists recs, get_overlapping_shifts two_games 1 = Ok recs).
Proof.
  apply (engine_returns two_games 1).
  intros x [<- | [<- | []]]; cbn [snd shift startTime endTime];
    rewrite maxsize_eq; lia.
Defined.

(** ** The value of a cell *)

Lemma dict_get_set_same {V : Type} (k : Z) (v : V) (d : dict V) :
  dict_get k (dict_set k v d) = Some v.
Proof.
  induction d as [| [k0 v0] d IH]; simpl.
  - rewrite Z.eqb_refl. reflexivity.
  - destruct (Z.eqb_spec k0 k) as [-> | Hne]; simpl.
    + rewrite Z.eqb_refl. reflexivity.
    + destruct (Z.eqb_spec k0 k); [contradiction | exact IH].
Qed.

Lemma dict_get_set_other {V : Type} (k k' : Z) (v : V) (d : dict V) :
  k <> k' -> dict_get k' (dict_set k v d) = dict_get k' d.
Proof.
  intros Hne. induction d as [| [k0 v0] d IH]; simpl.
  - destruct (Z.eqb_spec k k'); [contradiction | reflexivity].
  - destruct (Z.eqb_spec k0 k) as [-> | Hne0]; simpl.
    + destruct (Z.eqb_spec k k'); [contradiction | reflexivity].
    + destruct (Z.eqb_spec k0 k'); [reflexivity | exact IH].
Qed.

Lemma overlap_dict_untouched (sh : Shift) (l : list (Z * Shift)) (k : Z) :
  (forall o, In o l -> playerId (snd o) <> k) ->
  forall d0 d, foldM (overlap_step sh) l d0 = Ok d ->
  dict_get k d = dict_get k d0.
Proof.
  induction l as [| o l IH]; simpl; intros Hl d0 d H.
  - injection H as <-. reflexivity.
  - bind_names H d1 Hd1. unfold overlap_step in Hd1. bind_names Hd1 n Hn.
    injection Hd1 as <-.
    rewrite (IH (fun o' Ho' => Hl o' (or_intror Ho')) _ _ H).
    apply dict_get_set_other. apply Hl. left. reflexivity.
Qed.

(** X9: The dictionary of a shift holds, for a partner, the seconds shared
    with the last of the partner's overlapping shifts, in the order of the
    table: what the earlier ones gave is replaced. *)
Theorem last_overlapping_shift_wins (sh : Shift) (l1 l2 : list (Z * Shift))
        (o : Z * Shift) (d : dict Z) :
  overlap_dict_of sh (l1 ++ o :: l2) = Ok d ->
  (forall o', In o' l2 -> playerId (snd o') <> playerId (snd o)) ->
  exists v,
    overlap_seconds (startTime sh) (endTime sh)
      (startTime (snd o)) (endTime (snd o)) = Ok v
    /\ dict_get (playerId (snd o)) d = Some v.
Proof.
  unfold overlap_dict_of. intros H Hl2.
  destruct (foldM_app _ _ _ _ _ H) as [d1 [_ H2]]. simpl in H2.
  bind_names H2 d2 Hd2. unfold overlap_step in Hd2. bind_names Hd2 v Hv.
  injection Hd2 as <-. exists v. split; [exact Hv |].
  rewrite (overlap_dict_untouched _ _ _ Hl2 _ _ H2).
  apply dict_get_set_same.
Qed.

Lemma last_overlapping_shift_wins_witness :
  exists v,
    overlap_seconds 0 100 80 120 = Ok v
    /\ dict_get 8 [(8, 20); (9, 10)] = Some v.
Proof.
  apply (last_overlapping_shift_wins (shift 1 7 0 100 10)
           [(1, shift 1 8 0 30 10); (2, shift 1 9 90 130 10)] []
           (3, shift 1 8 80 120 10) [(8, 20); (9, 10)]).
  - reflexivity.
  - intros o' [].
Defined.

(** ** The dedup, stated for the records *)

(** X10: Two players are never reported in both directions: when a record has
    player [p] and partner [q], no record has player [q] and partner [p];
    this holds for every table the engine returns on. *)
Theorem never_both_directions (game_shifts_df : list (Z * Shift)) (g : Z)
        (recs : list OverlapRecord) (r1 r2 : OverlapRecord) :
  get_overlapping_shifts game_shifts_df g = Ok recs ->
  In r1 recs -> In r2 recs ->
  ~ (overlap_playerId r2 = playerId2 r1 /\ playerId2 r2 = overlap_playerId r1).
Proof. intros H. exact (records_one_sided game_shifts_df g recs H r1 r2). Qed.

Lemma never_both_directions_witness :
  ~ (overlap_playerId (mkOverlap 1 8 9 50) = playerId2 (mkOverlap 1 7 9 40)
     /\ playerId2 (mkOverlap 1 8 9 50) = overlap_playerId (mkOverlap 1 7 9 40)).
Proof.
  apply (never_both_directions
           [(0, shift 1 9 0 100 10); (1, shift 1 8 50 150 10);
            (2, shift 1 7 20 60 10)] 1
           [mkOverlap 1 7 9 40; mkOverlap 1 8 9 50; mkOverlap 1 7 8 10]).
  - reflexivity.
  - left. reflexivity.
  - right. left. reflexivity.
Defined.

(** X11: In a table with different labels, two team mates whose shifts are not
    empty and intersect are reported: a record has the one with the smaller
    id as its player and the other as its partner, and no record has them
    the other way round. *)
Theorem team_mates_reported_on_one_side (game_shifts_df : list (Z * Shift))
        (g : Z) (recs : list OverlapRecord) (i j : Z) (a b : Shift) :
  NoDup (index (select_game game_shifts_df g)) ->
  get_overlapping_shifts game_shifts_df g = Ok recs ->
  In (i, a) (select_game game_shifts_df g) ->
  In (j, b) (select_game game_shifts_df g) ->
  teamId a = teamId b -> playerId a <> playerId b ->
  startTime a < endTime a -> startTime b < endTime b ->
  startTime a < endTime b -> startTime b < endTime a ->
  (exists v, In (mkOverlap g (Z.min (playerId a) (playerId b))
                   (Z.max (playerId a) (playerId b)) v) recs)
  /\ (forall v, ~ In (mkOverlap g (Z.max (playerId a) (playerId b))
                        (Z.min (playerId a) (playerId b)) v) recs).
Proof. exact (pair_reported_on_one_side game_shifts_df g recs i j a b). Qed.

Lemma team_mates_reported_on_one_side_witness :
  (exists v, In (mkOverlap 1 (Z.min 8 7) (Z.max 8 7) v) [mkOverlap 1 7 8 50])
  /\ (forall v, ~ In (mkOverlap 1 (Z.max 8 7) (Z.min 8 7) v)
                  [mkOverlap 1 7 8 50]).
Proof.
  apply (team_mates_reported_on_one_side two_games 1 [mkOverlap 1 7 8 50]
           1 0 (shift 1 8 50 150 10) (shift 1 7 0 100 10));
    try reflexivity; try (simpl; lia).
  - repeat constructor; simpl; intuition discriminate.
  - right. left. reflexivity.
  - left. reflexivity.
Defined.

(** ** The two functions in a row *)

(** X12: For a game without usable record the reconciler returns the empty
    table, and the engine, given that table, raises ValueError whatever the
    game it is asked for: [pd.concat] has nothing to concatenate. *)
Theorem empty_game_stops_the_engine (game_shifts : list RawShift) :
  (forall r, In r game_shifts -> complete_row r = None) ->
  exists df,
    get_game_shifts game_shifts = Ok df
    /\ forall g, get_overlapping_shifts (rows df) g = Raise ValueError.
Proof.
  intros H. exists empty_frame. split; [| reflexivity].
  unfold get_game_shifts.
  destruct (range_index 0 game_shifts) as [| x l] eqn:E; [reflexivity |].
  rewrite <- E. rewrite dropna_none; [reflexivity |].
  intros y Hy. apply H. exact (range_index_In _ _ _ Hy).
Qed.

Lemma empty_game_stops_the_engine_witness :
  exists df,
    get_game_shifts [goal_event] = Ok df
    /\ forall g, get_overlapping_shifts (rows df) g = Raise ValueError.
Proof.
  apply (empty_game_stops_the_engine [goal_event]).
  intros r [<- | []]. reflexivity.
Defined.

(** The engine, given the table the reconciler returns, meets the
    condition on the labels: within the game it is asked for they are all
    different. *)
Lemma reconciled_table_fits_engine (game_shifts : list RawShift)
      (df : DataFrame Shift) (g : Z) :
  get_game_shifts game_shifts = Ok df ->
  NoDup (index (select_game (rows df) g)).
Proof.
  intros H. unfold select_game. apply filter_unique_labels.
  destruct (reconciled_rows_kept_aux game_shifts df H) as [_ Hk].
  rewrite (Forall2_kept_index _ _ Hk). apply dropna_range_index_NoDup.
Qed.

(** * The schedule functions *)

Lemma for_each_Forall2 {A B : Type} (f : A -> outcome B) (l : list A)
      (l' : list B) :
  Forall2 (fun a b => f a = Return b) l l' -> for_each f l = Return l'.
Proof.
  induction 1 as [| a b l l' Hab _ IH]; simpl; [reflexivity |].
  rewrite Hab. simpl. rewrite IH. reflexivity.
Qed.

Lemma for_each_total {A B : Type} (f : A -> outcome B) (l : list A) :
  (forall a, In a l -> exists b, f a = Return b) ->
  exists l', for_each f l = Return l'.
Proof.
  induction l as [| a l IH]; simpl; intros H.
  - exists []. reflexivity.
  - destruct (H a (or_introl eq_refl)) as [b Hb].
    destruct IH as [l' Hl']; [intros x Hx; apply H; right; exact Hx |].
    rewrite Hb. simpl. rewrite Hl'. simpl. eexists. reflexivity.
Qed.

Lemma for_each_Fail {A B : Type} (f : A -> outcome B) (l : list A) (e : error) :
  (forall a e', f a = Fail e' -> e' = e) ->
  forall a, In a l -> f a = Fail e -> for_each f l = Fail e.
Proof.
  intros Hone a. induction l as [| a0 l IH]; simpl; intros Ha Hf.
  - contradiction.
  - destruct Ha as [-> | Ha].
    + rewrite Hf. reflexivity.
    + destruct (f a0) as [b | e'] eqn:E; simpl.
      * rewrite (IH Ha Hf). reflexivity.
      * rewrite (Hone _ _ E). reflexivity.
Qed.

Lemma item_Fail {A : Type} (key : string) (v : option A) (e : error) :
  item key v = Fail e -> e = KeyError key.
Proof. destruct v; simpl; intros H; [discriminate H | congruence]. Qed.

(** X14: When the answer has its dates, every date its games and every game its
    gamePk, [get_game_ids_between_dates] returns the ids date after date
    and, within a date, game after game: as many ids as there are games,
    none left out and none added. *)
Theorem game_ids_in_schedule_order (requests_get : string -> Schedule)
        (start_date end_date : string) (ds : list ScheduleDate)
        (date_games : list (list Game)) (ids : list (list Z)) :
  dates (requests_get (date_url start_date end_date)) = Some ds ->
  Forall2 (fun d gs => games d = Some gs) ds date_games ->
  Forall2 (Forall2 (fun game id => gamePk game = Some id)) date_games ids ->
  get_game_ids_between_dates requests_get start_date end_date
  = Return (List.concat ids)
  /\ List.length (List.concat ids)
     = list_sum (map (@List.length Game) date_games).
Proof.
  intros Hd Hg Hi. split.
  - unfold get_game_ids_between_dates. rewrite Hd. simpl.
    rewrite (for_each_Forall2 _ ds date_games).
    + simpl. rewrite (for_each_Forall2 _ date_games ids); [reflexivity |].
      revert Hi. apply Forall2_impl. intros gs l _ H.
      apply for_each_Forall2. revert H. apply Forall2_impl.
      intros game id _ ->. reflexivity.
    + revert Hg. apply Forall2_impl. intros d gs _ ->. reflexivity.
  - clear Hg Hd. induction Hi as [| gs l date_games ids Hgl _ IH]; simpl;
      [reflexivity |].
    rewrite length_app, IH. f_equal.
    clear IH. induction Hgl; simpl; congruence.
Qed.

Lemma game_ids_in_schedule_order_witness :
  get_game_ids_between_dates
    (one_schedule
       (mkSchedule
          (Some [mkDate (Some [mkGame (Some 2021020127); mkGame (Some 2021020128)]);
                 mkDate (Some []);
                 mkDate (Some [mkGame (Some 2021020131)])]) None))
    "2021-10-31" "2021-11-02"
  = Return (List.concat [[2021020127; 2021020128]; []; [2021020131]])
  /\ List.length (List.concat [[2021020127; 2021020128]; []; [2021020131]])
     = list_sum (map (@List.length Game)
                   [[mkGame (Some 2021020127); mkGame (Some 2021020128)];
                    []; [mkGame (Some 2021020131)]]).
Proof.
  apply (game_ids_in_schedule_order _ "2021-10-31" "2021-11-02"
           [mkDate (Some [mkGame (Some 2021020127); mkGame (Some 2021020128)]);
            mkDate (Some []);
            mkDate (Some [mkGame (Some 2021020131)])]).
  - reflexivity.
  - repeat constructor.
  - repeat constructor.
Defined.

Lemma for_each_decide {A B : Type} (f : A -> outcome B) (bad : A -> bool)
      (g : A -> B) (e : error) (l : list A) :
  (forall a, f a = if bad a then Fail e else Return (g a)) ->
  for_each f l = if existsb bad l then Fail e else Return (map g l).
Proof.
  intros Hf. induction l as [| a l IH]; simpl; [reflexivity |].
  rewrite Hf. destruct (bad a); simpl; [reflexivity |].
  rewrite IH. destruct (existsb bad l); reflexivity.
Qed.

Lemma existsb_map {A B : Type} (f : A -> B) (p : B -> bool) (l : list A) :
  existsb p (map f l) = existsb (fun a => p (f a)) l.
Proof.
  induction l as [| a l IH]; simpl; [reflexivity | rewrite IH; reflexivity].
Qed.

(** X15: [get_game_ids_between_dates] fails only on an absent key, and the key
    it names follows the order of the code: "dates"; then "games", when a
    date has none, whatever the games of the other dates look like; then
    "gamePk", when a game has no id.  Otherwise it returns every id of
    the answer, date after date and game after game. *)
Theorem game_ids_or_key_error (requests_get : string -> Schedule)
        (start_date end_date : string) :
  get_game_ids_between_dates requests_get start_date end_date
  = match dates (requests_get (date_url start_date end_date)) with
    | None => Fail (KeyError "dates")
    | Some ds =>
        if date_without_games ds then Fail (KeyError "games")
        else if game_without_id ds then Fail (KeyError "gamePk")
             else Return (listed_ids ds)
    end.
Proof.
  unfold get_game_ids_between_dates.
  destruct (dates (requests_get (date_url start_date end_date))) as [ds |];
    [| reflexivity].
  simpl.
  rewrite (for_each_decide (fun date => item "games" (games date))
             (fun d => absent (games d)) games_of (KeyError "games"))
    by (intros d; unfold games_of; destruct (games d); reflexivity).
  fold (date_without_games ds). destruct (date_without_games ds);
    [reflexivity |].
  simpl.
  rewrite (for_each_decide
             (for_each (fun game => item "gamePk" (gamePk game)))
             (existsb (fun game => absent (gamePk game))) (map id_of)
             (KeyError "gamePk")).
  - rewrite existsb_map, map_map. fold (game_without_id ds).
    destruct (game_without_id ds); reflexivity.
  - intros gs. apply for_each_decide.
    intros game. unfold id_of. destruct (gamePk game); reflexivity.
Qed.

(** X16: [get_number_of_games_in_season] takes the season as an integer or as
    its decimal text: both ask for the same address and give the same
    answer. *)
Theorem season_as_text_or_integer (year : Z)
        (requests_session : string -> Schedule) :
  get_number_of_games_in_season (inl (Py.str year)) requests_session
  = get_number_of_games_in_season (inr year) requests_session.
Proof.
  unfold get_number_of_games_in_season, int_of_season.
  rewrite int_str. reflexivity.
Qed.


(** * [standardize_coordinates] *)

(** ** The groups of shots and the merge *)

Lemma event_key_eqb_eq (k1 k2 : EventKey) :
  event_key_eqb k1 k2 = true <-> k1 = k2.
Proof.
  destruct k1 as [[[g1 h1] p1] o1], k2 as [[[g2 h2] p2] o2].
  unfold event_key_eqb.
  rewrite !andb_true_iff, !Z.eqb_eq, !Bool.eqb_true_iff. split.
  - intros [[[-> ->] ->] ->]. reflexivity.
  - intros E. injection E as -> -> -> ->. repeat split.
Qed.

Lemma event_key_eqb_refl (k : EventKey) : event_key_eqb k k = true.
Proof. apply event_key_eqb_eq. reflexivity. Qed.

Lemma event_key_lt_trans (k1 k2 k3 : EventKey) :
  event_key_lt k1 k2 -> event_key_lt k2 k3 -> event_key_lt k1 k3.
Proof.
  destruct k1 as [[[g1 h1] p1] o1], k2 as [[[g2 h2] p2] o2],
    k3 as [[[g3 h3] p3] o3].
  unfold event_key_lt, event_key_ltb, bool_ltb.
  destruct h1, h2, h3, o1, o2, o3; simpl; Zbool; simpl; intros; try lia;
    try discriminate; reflexivity.
Qed.

Lemma event_key_lt_irrefl (k : EventKey) : ~ event_key_lt k k.
Proof.
  destruct k as [[[g h] p] o]. unfold event_key_lt, event_key_ltb, bool_ltb.
  destruct h, o; simpl; Zbool; simpl; intros; try lia; discriminate.
Qed.

Lemma event_key_total (k1 k2 : EventKey) :
  event_key_ltb k1 k2 = false -> event_key_eqb k1 k2 = false ->
  event_key_lt k2 k1.
Proof.
  destruct k1 as [[[g1 h1] p1] o1], k2 as [[[g2 h2] p2] o2].
  unfold event_key_lt, event_key_ltb, event_key_eqb, bool_ltb.
  destruct h1, h2, o1, o2; simpl; Zbool; simpl; intros; try lia;
    try discriminate; reflexivity.
Qed.

Lemma insert_event_key_In (k k' : EventKey) (l : list EventKey) :
  In k (insert_event_key k' l) <-> k = k' \/ In k l.
Proof.
  induction l as [| h t IH]; simpl.
  - intuition.
  - destruct (event_key_ltb k' h) eqn:L; simpl.
    + intuition.
    + destruct (event_key_eqb k' h) eqn:E; simpl.
      * apply event_key_eqb_eq in E. subst h. intuition.
      * rewrite IH. intuition.
Qed.

Lemma insert_event_key_sorted (k : EventKey) (l : list EventKey) :
  StronglySorted event_key_lt l ->
  StronglySorted event_key_lt (insert_event_key k l).
Proof.
  induction l as [| h t IH]; simpl; intros H.
  - constructor; constructor.
  - inversion H as [| ? ? Ht Hh]; subst. rewrite Forall_forall in Hh.
    destruct (event_key_ltb k h) eqn:L.
    + constructor; [exact H |]. constructor; [exact L |].
      apply Forall_forall. intros x Hx.
      exact (event_key_lt_trans k h x L (Hh x Hx)).
    + destruct (event_key_eqb k h) eqn:E; [exact H |].
      constructor; [exact (IH Ht) |].
      apply Forall_forall. intros x Hx. apply insert_event_key_In in Hx.
      destruct Hx as [-> | Hx]; [| exact (Hh x Hx)].
      exact (event_key_total _ _ L E).
Qed.

Lemma sorted_keys_NoDup (l : list EventKey) :
  StronglySorted event_key_lt l -> NoDup l.
Proof.
  induction 1 as [| k l _ IH Hk]; constructor; [| exact IH].
  intros Hin. rewrite Forall_forall in Hk.
  exact (event_key_lt_irrefl k (Hk k Hin)).
Qed.

Lemma event_group_keys_NoDup (es : list Event) : NoDup (event_group_keys es).
Proof.
  apply sorted_keys_NoDup. unfold event_group_keys.
  induction (map event_key es) as [| k l IH]; simpl; [constructor |].
  apply insert_event_key_sorted. exact IH.
Qed.

Lemma event_group_keys_In (es : list Event) (k : EventKey) :
  In k (event_group_keys es) <-> exists e, In e es /\ event_key e = k.
Proof.
  unfold event_group_keys. induction es as [| e es IH]; simpl.
  - split; [intros [] | intros [e [[] _]]].
  - rewrite insert_event_key_In, IH. split.
    + intros [-> | [e' [He' E]]].
      * exists e. split; [left; reflexivity | reflexivity].
      * exists e'. split; [right; exact He' | exact E].
    + intros [e' [[<- | He'] E]].
      * left. symmetry. exact E.
      * right. exists e'. split; assumption.
Qed.

(** In a list without repetition, the entries equal to [k] are [k] itself
    or none. *)
Lemma filter_key_NoDup (k : EventKey) (l : list EventKey) :
  NoDup l ->
  filter (event_key_eqb k) l = [k] /\ In k l
  \/ filter (event_key_eqb k) l = [] /\ ~ In k l.
Proof.
  induction 1 as [| h l Hh _ IH]; simpl; [right; split; [reflexivity | auto] |].
  destruct (event_key_eqb k h) eqn:E.
  - apply event_key_eqb_eq in E. subst h. left.
    destruct IH as [[_ Hin] | [-> _]]; [contradiction |].
    split; [reflexivity | left; reflexivity].
  - destruct IH as [[-> Hin] | [-> Hn]].
    + left. split; [reflexivity | right; exact Hin].
    + right. split; [reflexivity |]. intros [-> | Hin]; [| exact (Hn Hin)].
      rewrite event_key_eqb_refl in E. discriminate E.
Qed.

Lemma filter_map_comm {A B : Type} (f : A -> B) (p : B -> bool) (l : list A) :
  filter p (map f l) = map f (filter (fun a => p (f a)) l).
Proof.
  induction l as [| a l IH]; simpl; [reflexivity |].
  destruct (p (f a)); simpl; rewrite IH; reflexivity.
Qed.

Lemma filter_and {A : Type} (p q : A -> bool) (l : list A) :
  filter q (filter p l) = filter (fun a => p a && q a) l.
Proof.
  induction l as [| a l IH]; simpl; [reflexivity |].
  destruct (p a); simpl; [destruct (q a) |]; rewrite IH; reflexivity.
Qed.

Lemma filter_nil_iff {A : Type} (p : A -> bool) (l : list A) :
  (forall a, In a l -> p a = false) -> filter p l = [].
Proof.
  induction l as [| a l IH]; simpl; intros H; [reflexivity |].
  rewrite (H a (or_introl eq_refl)). apply IH.
  intros b Hb. apply H. right. exact Hb.
Qed.

Lemma merge_left_one (pbp : list Event) (e : Event) :
  merge_left e (game_median_x (filter is_shot_event pbp))
  = [adjust e (group_sign pbp e)].
Proof.
  unfold merge_left, game_median_x. rewrite filter_map_comm.
  rewrite (filter_ext _ (event_key_eqb (event_key e)))
    by (intros k; reflexivity).
  destruct (filter_key_NoDup (event_key e)
              (event_group_keys (filter is_shot_event pbp))
              (event_group_keys_NoDup _)) as [[-> Hin] | [-> Hn]]; simpl.
  - unfold group_sign. rewrite filter_and. reflexivity.
  - unfold group_sign.
    rewrite (filter_nil_iff _ pbp); [reflexivity |].
    intros e' He'. destruct (is_shot_event e') eqn:S; [| reflexivity].
    destruct (event_key_eqb (event_key e') (event_key e)) eqn:E;
      [| reflexivity].
    exfalso. apply Hn. apply event_group_keys_In. exists e'.
    split; [apply filter_In; split; assumption |].
    apply event_key_eqb_eq. exact E.
Qed.

Lemma standardize_map (pbp : list Event) :
  standardize_coordinates pbp
  = map (fun e => adjust e (group_sign pbp e)) pbp.
Proof.
  unfold standardize_coordinates.
  assert (H : forall l,
             flat_map (fun e => merge_left e
                                  (game_median_x (filter is_shot_event pbp))) l
             = map (fun e => adjust e (group_sign pbp e)) l).
  { induction l as [| e l IH]; simpl; [reflexivity |].
    rewrite merge_left_one, IH. reflexivity. }
  apply H.
Qed.

(** X18: [standardize_coordinates] returns one row for each event, in the order
    of the events: the event with its x and its y multiplied by the sign of
    the median x of the shots of its game, side and period (the shots on a
    tended goal, up to period 4), NaN when there is no such shot with a
    known x.  No event is repeated by the merge. *)
Theorem standardized_by_group_sign (pbp : list Event) :
  standardize_coordinates pbp
  = map (fun e => adjust e (group_sign pbp e)) pbp.
Proof. exact (standardize_map pbp). Qed.

(** ** Events after period 4 *)

Lemma is_shot_event_period (e : Event) :
  is_shot_event e = true -> PeriodNumber e < 5.
Proof.
  unfold is_shot_event. intros H. apply andb_true_iff in H.
  destruct H as [_ H]. apply Z.ltb_lt. exact H.
Qed.

Lemma event_key_period (e e' : Event) :
  event_key e' = event_key e -> PeriodNumber e' = PeriodNumber e.
Proof. unfold event_key. intros H. injection H as _ _ Hp _. exact Hp. Qed.

(** X19: The events of period 5 and later, the shoot-out among them, come out
    with NaN in both new columns: the shots that set the direction are taken
    from periods 1 to 4, so the merge finds no group for them. *)
Theorem late_periods_lose_coordinates (pbp : list Event) (r : Adjusted) :
  In r (standardize_coordinates pbp) -> 5 <= PeriodNumber (event r) ->
  X_adj r = None /\ Y_adj r = None.
Proof.
  rewrite standardize_map. intros Hr Hp. apply in_map_iff in Hr.
  destruct Hr as [e [<- He]]. simpl in Hp.
  assert (Hs : group_sign pbp e = None).
  { unfold group_sign. rewrite (filter_nil_iff _ pbp); [reflexivity |].
    intros e' _. destruct (is_shot_event e') eqn:S; [| reflexivity].
    destruct (event_key_eqb (event_key e') (event_key e)) eqn:E;
      [| reflexivity].
    apply event_key_eqb_eq in E. apply event_key_period in E.
    apply is_shot_event_period in S. lia. }
  unfold adjust. simpl. rewrite Hs. unfold times.
  destruct (X e), (Y e); split; reflexivity.
Qed.

Lemma late_periods_lose_coordinates_witness :
  X_adj (mkAdjusted shootout_goal None None) = None
  /\ Y_adj (mkAdjusted shootout_goal None None) = None.
Proof.
  apply (late_periods_lose_coordinates [shootout_goal]).
  - left. reflexivity.
  - simpl. lia.
Defined.

(** ** The median of the turned shots *)

Lemma insert_value_perm (x : Z) (l : list Z) :
  Permutation (insert_value x l) (x :: l).
Proof.
  induction l as [| h t IH]; simpl; [apply Permutation_refl |].
  destruct (x <=? h); [apply Permutation_refl |].
  apply perm_trans with (h :: x :: t); [| apply perm_swap].
  apply perm_skip. exact IH.
Qed.

Lemma sort_values_perm (l : list Z) : Permutation (sort_values l) l.
Proof.
  induction l as [| x l IH]; simpl; [constructor |].
  apply perm_trans with (x :: sort_values l); [apply insert_value_perm |].
  apply perm_skip. exact IH.
Qed.

Lemma insert_value_sorted (x : Z) (l : list Z) :
  StronglySorted Z.le l -> StronglySorted Z.le (insert_value x l).
Proof.
  induction l as [| h t IH]; simpl; intros H.
  - constructor; constructor.
  - inversion H as [| ? ? Ht Hh]; subst. rewrite Forall_forall in Hh.
    destruct (Z.leb_spec x h) as [Hle | Hlt].
    + constructor; [exact H |]. constructor; [exact Hle |].
      apply Forall_forall. intros y Hy. specialize (Hh y Hy). lia.
    + constructor; [exact (IH Ht) |]. apply Forall_forall. intros y Hy.
      apply (Permutation_in _ (insert_value_perm x t)) in Hy.
      destruct Hy as [<- | Hy]; [lia | exact (Hh y Hy)].
Qed.

Lemma sort_values_sorted (l : list Z) : StronglySorted Z.le (sort_values l).
Proof.
  induction l as [| x l IH]; simpl; [constructor |].
  apply insert_value_sorted. exact IH.
Qed.

Lemma sorted_unique (l1 l2 : list Z) :
  StronglySorted Z.le l1 -> StronglySorted Z.le l2 -> Permutation l1 l2 ->
  l1 = l2.
Proof.
  revert l2. induction l1 as [| a l1 IH]; intros l2 H1 H2 P.
  - apply Permutation_nil in P. symmetry. exact P.
  - destruct l2 as [| b l2];
      [apply Permutation_sym, Permutation_nil in P; discriminate P |].
    inversion H1 as [| ? ? Hs1 Ha]; subst.
    inversion H2 as [| ? ? Hs2 Hb]; subst.
    rewrite Forall_forall in Ha, Hb.
    assert (a = b).
    { assert (Hab : In b (a :: l1))
        by (apply (Permutation_in _ (Permutation_sym P)); left; reflexivity).
      assert (Hba : In a (b :: l2))
        by (apply (Permutation_in _ P); left; reflexivity).
      destruct Hab as [-> | Hab]; [reflexivity |].
      destruct Hba as [-> | Hba]; [reflexivity |].
      specialize (Ha b Hab). specialize (Hb a Hba). lia. }
    subst b. f_equal. apply IH; try assumption.
    exact (Permutation_cons_inv P).
Qed.

Lemma sorted_snoc (l : list Z) (x : Z) :
  StronglySorted Z.le l -> (forall y, In y l -> y <= x) ->
  StronglySorted Z.le (l ++ [x]).
Proof.
  induction 1 as [| a l Hs IH Ha]; simpl; intros Hx.
  - constructor; constructor.
  - constructor; [apply IH; intros y Hy; apply Hx; right; exact Hy |].
    rewrite Forall_forall in *. intros y Hy. apply in_app_or in Hy.
    destruct Hy as [Hy | [<- | []]]; [exact (Ha y Hy) |].
    apply Hx. left. reflexivity.
Qed.

Lemma rev_opp_sorted (l : list Z) :
  StronglySorted Z.le l -> StronglySorted Z.le (rev (map Z.opp l)).
Proof.
  induction 1 as [| a l Hs IH Ha]; simpl; [constructor |].
  apply sorted_snoc; [exact IH |].
  intros y Hy. apply in_rev in Hy. apply in_map_iff in Hy.
  destruct Hy as [z [<- Hz]]. rewrite Forall_forall in Ha.
  specialize (Ha z Hz). lia.
Qed.

Lemma sort_values_opp (l : list Z) :
  sort_values (map Z.opp l) = rev (map Z.opp (sort_values l)).
Proof.
  apply sorted_unique.
  - apply sort_values_sorted.
  - apply rev_opp_sorted, sort_values_sorted.
  - apply perm_trans with (map Z.opp l); [apply sort_values_perm |].
    apply perm_trans with (map Z.opp (sort_values l));
      [| apply Permutation_rev].
    apply Permutation_map, Permutation_sym, sort_values_perm.
Qed.

Lemma nth_rev_opp (s : list Z) (i : nat) :
  (i < List.length s)%nat ->
  nth i (rev (map Z.opp s)) 0 = - nth (List.length s - S i) s 0.
Proof.
  intros Hi. rewrite rev_nth by (rewrite length_map; exact Hi).
  rewrite length_map. change 0 with (- 0) at 1. apply map_nth.
Qed.

Lemma twice_median_opp (l : list Z) :
  twice_median (map Z.opp l) = option_map Z.opp (twice_median l).
Proof.
  unfold twice_median. rewrite sort_values_opp.
  rewrite length_rev, length_map.
  set (s := sort_values l). destruct (List.length s) as [| m] eqn:En;
    [reflexivity |].
  destruct (Nat.even (S m)) eqn:Ev; cbn [option_map]; f_equal.
  - apply Nat.even_spec in Ev. destruct Ev as [k Hk].
    assert (Hd : (S m / 2 = k)%nat)
      by (rewrite Hk, Nat.mul_comm; apply Nat.div_mul; discriminate).
    rewrite Hd. rewrite !nth_rev_opp by lia. rewrite En.
    replace (S m - S (k - 1))%nat with k by lia.
    replace (S m - S k)%nat with (k - 1)%nat by lia. lia.
  - assert (Ho : Nat.odd (S m) = true)
      by (unfold Nat.odd; rewrite Ev; reflexivity).
    apply Nat.odd_spec in Ho. destruct Ho as [k Hk].
    assert (Hd : (S m / 2 = k)%nat).
    { rewrite Hk, Nat.mul_comm, Nat.div_add_l by discriminate. simpl. lia. }
    rewrite Hd. rewrite nth_rev_opp by lia. rewrite En.
    replace (S m - S k)%nat with k by lia. lia.
Qed.

Lemma twice_median_zeros (l : list Z) :
  l <> [] -> (forall x, In x l -> x = 0) -> twice_median l = Some 0.
Proof.
  intros Hne Hz. unfold twice_median.
  assert (Hs : forall i, nth i (sort_values l) 0 = 0).
  { intros i. destruct (nth_in_or_default i (sort_values l) 0) as [Hin | E];
      [| exact E].
    apply Hz. exact (Permutation_in _ (sort_values_perm l) Hin). }
  assert (Hl : List.length (sort_values l) = List.length l)
    by (apply Permutation_length, sort_values_perm).
  rewrite Hl. destruct l as [| x l]; [contradiction Hne; reflexivity |].
  cbn [List.length]. destruct (Nat.even (S (List.length l)));
    rewrite !Hs; reflexivity.
Qed.

Lemma known_times (s : Z) (l : list (option Z)) :
  known (map (fun x => times x (Some s)) l) = map (fun x => x * s) (known l).
Proof.
  induction l as [| [x |] l IH]; simpl; [reflexivity | f_equal |]; exact IH.
Qed.

Lemma known_times_nan (l : list (option Z)) :
  known (map (fun x => times x None) l) = [].
Proof.
  induction l as [| [x |] l IH]; simpl; [reflexivity | |]; exact IH.
Qed.

(** A list of values multiplied by the sign of its median has a median
    that is not negative. *)
Lemma median_sign_turned (xs : list Z) (s : Z) :
  median_sign xs = Some s ->
  median_sign (map (fun x => x * s) xs) = Some (Z.abs s).
Proof.
  unfold median_sign. intros H.
  destruct (twice_median xs) as [m |] eqn:Em; [| discriminate H].
  simpl in H. injection H as <-.
  destruct (Z.sgn_spec m) as [[Hm E] | [[Hm E] | [Hm E]]]; rewrite E.
  - rewrite (map_ext _ (fun x => x)) by (intros; lia).
    rewrite map_id, Em. simpl. rewrite E. reflexivity.
  - rewrite twice_median_zeros; [reflexivity | |].
    + destruct xs; [discriminate Em | discriminate].
    + intros x Hx. apply in_map_iff in Hx. destruct Hx as [y [<- _]]. lia.
  - rewrite (map_ext _ Z.opp) by (intros; lia).
    rewrite twice_median_opp, Em. simpl. f_equal. lia.
Qed.

Lemma group_sign_same_key (pbp : list Event) (e e' : Event) :
  event_key e' = event_key e -> group_sign pbp e' = group_sign pbp e.
Proof. unfold group_sign. intros ->. reflexivity. Qed.

(** X20: After [standardize_coordinates] the shots of a team in a period point
    to the positive side: the median of their adjusted x has the sign 1
    when the median of their x was not 0, the sign 0 when it was 0 (every
    adjusted x of the group is then 0), and is NaN when there was none. *)
Theorem turned_shots_have_positive_median (pbp : list Event) (e : Event) :
  median_sign (adjusted_shots (standardize_coordinates pbp) e)
  = option_map Z.abs (group_sign pbp e).
Proof.
  rewrite standardize_map. unfold adjusted_shots.
  rewrite filter_map_comm, map_map. cbn [event X_adj adjust].
  set (members := filter (fun a => is_shot_event a
                                   && event_key_eqb (event_key a) (event_key e))
                         pbp).
  rewrite (map_ext_in _ (fun a => times (X a) (group_sign pbp e))).
  - rewrite <- (map_map X (fun x => times x (group_sign pbp e))).
    destruct (group_sign pbp e) as [s |] eqn:Es.
    + rewrite known_times. simpl. apply median_sign_turned. exact Es.
    + rewrite known_times_nan. reflexivity.
  - intros a Ha. unfold members in Ha. apply filter_In in Ha.
    destruct Ha as [_ Ha]. apply andb_true_iff in Ha. destruct Ha as [_ Ha].
    apply event_key_eqb_eq in Ha. rewrite (group_sign_same_key _ _ _ Ha).
    reflexivity.
Qed.

(** * A shift of no length *)

Lemma foldM_raises {A S : Type} (f : S -> A -> result S) (e : exn)
      (l : list A) :
  (forall s a e', In a l -> f s a = Raise e' -> e' = e) ->
  forall s e', foldM f l s = Raise e' -> e' = e.
Proof.
  induction l as [| a l IH]; simpl; intros Hf s e' H.
  - discriminate H.
  - destruct (f s a) as [s1 | e1] eqn:E; simpl in H.
    + apply (IH (fun s0 a0 e0 Ha0 => Hf s0 a0 e0 (or_intror Ha0)) _ _ H).
    + injection H as <-. exact (Hf _ _ _ (or_introl eq_refl) E).
Qed.

(** A loop whose passes before [a] can only raise [e] raises [e] when the
    pass of [a] does, whatever state the earlier passes leave. *)
Lemma foldM_raise_at {A S : Type} (f : S -> A -> result S) (e : exn)
      (l1 l2 : list A) (a : A) (s : S) :
  (forall s0 a0 e', In a0 l1 -> f s0 a0 = Raise e' -> e' = e) ->
  (forall s1, foldM f l1 s = Ok s1 -> f s1 a = Raise e) ->
  foldM f (l1 ++ a :: l2) s = Raise e.
Proof.
  revert s. induction l1 as [| a1 l1 IH]; simpl; intros s Hf Ha.
  - rewrite (Ha s eq_refl). reflexivity.
  - destruct (f s a1) as [s1 | e1] eqn:E; simpl.
    + apply IH.
      * intros s0 a0 e' Ha0. apply Hf. right. exact Ha0.
      * intros s2 H2. apply Ha. exact H2.
    + rewrite (Hf _ _ _ (or_introl eq_refl) E). reflexivity.
Qed.

(** Against a shift whose length [len] can take, the only exception is the
    IndexError of line 216. *)
Lemma overlap_seconds_raises (a0 a1 b0 b1 : Z) (e : exn) :
  b1 - b0 <= Py.maxsize ->
  overlap_seconds a0 a1 b0 b1 = Raise e -> e = IndexError.
Proof.
  intros Hb. revert Hb.
  range_cases; intros Hb Hv; try discriminate Hv; try congruence;
    exfalso; lia.
Qed.

Lemma overlap_step_raises (sh : Shift) (d : dict Z) (o : Z * Shift) (e : exn) :
  endTime (snd o) - startTime (snd o) <= Py.maxsize ->
  overlap_step sh d o = Raise e -> e = IndexError.
Proof.
  intros Hlen. unfold overlap_step.
  destruct (overlap_seconds (startTime sh) (endTime sh) (startTime (snd o))
              (endTime (snd o))) eqn:E; simpl; intros H.
  - discriminate H.
  - injection H as <-. exact (overlap_seconds_raises _ _ _ _ _ Hlen E).
Qed.

Lemma shift_step_raises (all_game_shifts shifts : list (Z * Shift))
      (player_team : Z * Z) (checked : list Z) (acc : dict WideRow)
      (sh : Z * Shift) (e : exn) :
  (forall o, In o all_game_shifts ->
     endTime (snd o) - startTime (snd o) <= Py.maxsize) ->
  shift_step all_game_shifts shifts player_team checked acc sh = Raise e ->
  e = IndexError.
Proof.
  intros Hlen. unfold shift_step, overlap_dict_of.
  destruct (foldM (overlap_step (snd sh))
              (shift_overlap player_team (snd sh)
                 (other_players all_game_shifts shifts checked)) [])
    as [d | e1] eqn:E; simpl; intros H.
  - discriminate H.
  - injection H as <-.
    apply (foldM_raises _ IndexError _) in E; [exact E |].
    intros d o e' Ho. apply overlap_step_raises. apply Hlen.
    unfold shift_overlap, other_players, drop in Ho.
    apply filter_In in Ho. destruct Ho as [Ho _].
    apply filter_In in Ho. destruct Ho as [Ho _].
    apply filter_In in Ho. apply Ho.
Qed.

Lemma player_step_raises (all_game_shifts : list (Z * Shift))
      (st : dict WideRow * list Z) (k : Z * Z) (e : exn) :
  (forall o, In o all_game_shifts ->
     endTime (snd o) - startTime (snd o) <= Py.maxsize) ->
  player_step all_game_shifts st k = Raise e -> e = IndexError.
Proof.
  intros Hlen. unfold player_step.
  destruct (foldM (shift_step all_game_shifts (get_group all_game_shifts k) k
                     (snd st))
              (get_group all_game_shifts k) (fst st)) as [acc | e1] eqn:E;
    simpl; intros H.
  - discriminate H.
  - injection H as <-.
    apply (foldM_raises _ IndexError _) in E; [exact E |].
    intros acc0 sh e' _. apply shift_step_raises. exact Hlen.
Qed.

(** The shift [b] is among those the shift [a] is compared with, when the
    player of [b] has not had his turn. *)
Lemma compared_with (all_game_shifts : list (Z * Shift)) (checked : list Z)
      (i j : Z) (a b : Shift) :
  NoDup (index all_game_shifts) ->
  In (i, a) all_game_shifts -> In (j, b) all_game_shifts ->
  teamId a = teamId b -> playerId a <> playerId b ->
  correct_time a b = true ->
  ~ In (playerId b) checked ->
  In (j, b)
     (shift_overlap (shift_key (i, a)) a
        (other_players all_game_shifts
           (get_group all_game_shifts (shift_key (i, a))) checked)).
Proof.
  intros Hnd Hia Hjb Hteam Hne Htime Hchecked.
  unfold shift_overlap, other_players, drop. rewrite !filter_In. simpl.
  repeat split.
  - exact Hjb.
  - apply negb_true_iff.
    destruct (isin j (index (get_group all_game_shifts (shift_key (i, a)))))
      eqn:E; [| reflexivity].
    exfalso. apply isin_In in E. unfold index in E.
    apply in_map_iff in E. destruct E as [[j' b'] [Ej Hb']]. simpl in Ej.
    subst j'. unfold get_group in Hb'. apply filter_In in Hb'.
    destruct Hb' as [Hb' Hkey].
    rewrite (unique_label _ _ _ _ Hnd Hb' Hjb) in Hkey.
    apply key_eqb_eq in Hkey. unfold shift_key in Hkey. simpl in Hkey.
    injection Hkey as Hp _. apply Hne. symmetry. exact Hp.
  - apply negb_true_iff. destruct (isin (playerId b) checked) eqn:E;
      [| reflexivity].
    exfalso. apply Hchecked. apply isin_In. exact E.
  - apply andb_true_iff. split; [| exact Htime].
    unfold correct_team, shift_key. simpl. apply Z.eqb_eq.
    symmetry. exact Hteam.
Qed.

(** X13: In a table with different labels, whose shifts of the game are at
    most [sys.maxsize] seconds long, a shift that ends when it starts, or
    before, stops the engine with IndexError as soon as a team mate with a
    greater id has a shift that begins before that instant and ends after
    it: line 216 takes the first element of an empty range. *)
Theorem empty_shift_raises_index_error (game_shifts_df : list (Z * Shift))
        (g : Z) (i j : Z) (a b : Shift) :
  NoDup (index (select_game game_shifts_df g)) ->
  (forall x, In x (select_game game_shifts_df g) ->
     endTime (snd x) - startTime (snd x) <= Py.maxsize) ->
  In (i, a) (select_game game_shifts_df g) ->
  In (j, b) (select_game game_shifts_df g) ->
  teamId a = teamId b -> playerId a < playerId b ->
  endTime a <= startTime a ->
  startTime b < startTime a < endTime b ->
  get_overlapping_shifts game_shifts_df g = Raise IndexError.
Proof.
  intros Hnd Hlen Hia Hjb Hteam Hlt Hempty Hin.
  unfold get_overlapping_shifts.
  set (all := select_game game_shifts_df g) in *.
  set (ka := shift_key (i, a)).
  assert (Hloop : foldM (player_step all) (group_keys all) ([], [])
                  = Raise IndexError);
    [| rewrite Hloop; reflexivity].
  destruct (in_split _ _ (group_keys_In all _ Hia)) as [l1 [l2 Hkeys]].
  fold ka in Hkeys. rewrite Hkeys.
  pose proof (group_keys_sorted all) as Hsorted. rewrite Hkeys in Hsorted.
  destruct (sorted_before _ _ _ Hsorted) as [Hbefore _].
  apply foldM_raise_at;
    [intros s0 k0 e' _; apply player_step_raises; exact Hlen |].
  intros s1 Hs1.
  assert (Hchecked : ~ In (playerId b) (snd s1)).
  { rewrite (checked_players_after _ _ _ _ Hs1). simpl. intros Hc.
    apply in_map_iff in Hc. destruct Hc as [k [Ek Hk]].
    pose proof (Hbefore _ Hk) as Hk'. apply key_lt_iff in Hk'.
    unfold ka, shift_key in Hk'. simpl in Hk'. lia. }
  unfold player_step.
  assert (Hg : In (i, a) (get_group all ka)).
  { unfold get_group. apply filter_In. split; [exact Hia |].
    apply key_eqb_eq. reflexivity. }
  destruct (in_split _ _ Hg) as [sh1 [sh2 Hshifts]].
  assert (Hsteps : foldM (shift_step all (get_group all ka) ka (snd s1))
                         (get_group all ka) (fst s1) = Raise IndexError);
    [| rewrite Hsteps; reflexivity].
  rewrite Hshifts at 2.
  apply foldM_raise_at;
    [intros acc0 sh0 e' _; apply shift_step_raises; exact Hlen |].
  intros acc1 _. unfold shift_step, overlap_dict_of. cbn [snd].
  assert (Hcand : In (j, b) (shift_overlap ka a
                               (other_players all (get_group all ka) (snd s1)))).
  { apply compared_with; try assumption; [lia |].
    unfold correct_time. apply overlaps_iff. right. lia. }
  destruct (in_split _ _ Hcand) as [c1 [c2 Hc]]. rewrite Hc.
  rewrite (foldM_raise_at (overlap_step a) IndexError c1 c2 (j, b) []);
    [reflexivity | |].
  { intros d o e' Ho. apply overlap_step_raises. apply Hlen.
    assert (Ho' : In o (shift_overlap ka a
                          (other_players all (get_group all ka) (snd s1))))
      by (rewrite Hc; apply in_or_app; left; exact Ho).
    unfold shift_overlap, other_players, drop in Ho'.
    apply filter_In in Ho'. destruct Ho' as [Ho' _].
    apply filter_In in Ho'. destruct Ho' as [Ho' _].
    apply filter_In in Ho'. apply Ho'. }
  intros d _. unfold overlap_step. cbn [snd].
  rewrite overlap_seconds_empty;
    [| exact Hempty | exact (Hlen _ Hjb)].
  destruct (Z.ltb_spec (startTime b) (endTime b)); [reflexivity | lia].
Qed.

Lemma empty_shift_raises_index_error_witness :
  get_overlapping_shifts
    [(0, shift 1 7 10 10 10); (1, shift 1 8 5 20 10)] 1 = Raise IndexError.
Proof.
  apply (empty_shift_raises_index_error
           [(0, shift 1 7 10 10 10); (1, shift 1 8 5 20 10)] 1
           0 1 (shift 1 7 10 10 10) (shift 1 8 5 20 10));
    try reflexivity; try (simpl; lia).
  - repeat constructor; simpl; intuition discriminate.
  - intros x [<- | [<- | []]]; cbn [snd shift startTime endTime];
      rewrite maxsize_eq; lia.
  - left. reflexivity.
  - right. left. reflexivity.
Defined.
